(** * prisma/seed.ts: the CSV-to-database seed script of next-store

    A shallow embedding of [src/prisma/seed.ts].  The script reads one CSV
    file per entity type, coerces the string fields of every row and issues
    one [upsert] per row against the store, entity types in a fixed order.

    Layout of the development:
    - [JS]: the primitives of the JavaScript runtime the script calls
      ([trim], [split], [parseInt], [parseFloat]);
    - the collaborators the script does not own (file system, csv-parse,
      [Date.parse], the clock, the store's verdict on an upsert), gathered
      in [Env];
    - a state-and-exception monad [M] over the [World] the script acts on;
    - the functions of the script, under their own names;
    - [Ref] and [Sample]: concrete collaborators and input files;
    - the vocabulary of the properties, then the properties. *)

From Stdlib Require Import ZArith QArith_base Qreduction Ascii String DecimalString.
From Stdlib Require Import DecimalFacts DecimalNat.
From stdpp Require Import gmap strings list fin_maps sorting.

Local Open Scope string_scope.
Local Open Scope Z_scope.

(** ** The JavaScript runtime *)

Module JS.

(** Strings are byte strings: the UTF-8 encoding of the program's text.  A
    character of the source outside ASCII is the sequence of its bytes. *)

Definition code (c : ascii) : Z := Z.of_N (N_of_ascii c).

(** [WhiteSpace] and [LineTerminator] code points below U+0080:
    TAB, LF, VT, FF, CR and SPACE. *)
Definition is_ws1 (c : ascii) : bool :=
  let n := code c in ((9 <=? n) && (n <=? 13)) || (n =? 32).

(** U+00A0, encoded C2 A0. *)
Definition is_ws2 (a b : ascii) : bool :=
  (code a =? 194) && (code b =? 160).

(** The three-byte ones: U+1680, U+2000..U+200A, U+2028, U+2029, U+202F,
    U+205F, U+3000 and U+FEFF. *)
Definition is_ws3 (a b c : ascii) : bool :=
  let x := code a in let y := code b in let z := code c in
  ((x =? 225) && (y =? 154) && (z =? 128))
  || ((x =? 226) && (y =? 128)
      && (((128 <=? z) && (z <=? 138)) || (z =? 168) || (z =? 169) || (z =? 175)))
  || ((x =? 226) && (y =? 129) && (z =? 159))
  || ((x =? 227) && (y =? 128) && (z =? 128))
  || ((x =? 239) && (y =? 187) && (z =? 191)).

(** [String.prototype.trimStart]. *)
Fixpoint trimStart (s : string) : string :=
  match s with
  | String a r1 =>
      if is_ws1 a then trimStart r1 else
      match r1 with
      | String b r2 =>
          if is_ws2 a b then trimStart r2 else
          match r2 with
          | String c r3 => if is_ws3 a b c then trimStart r3 else s
          | EmptyString => s
          end
      | EmptyString => s
      end
  | EmptyString => EmptyString
  end.

(** The same scan over the reversed string: the bytes of a character come
    last byte first. *)
Fixpoint trimStart_rev (s : string) : string :=
  match s with
  | String a r1 =>
      if is_ws1 a then trimStart_rev r1 else
      match r1 with
      | String b r2 =>
          if is_ws2 b a then trimStart_rev r2 else
          match r2 with
          | String c r3 => if is_ws3 c b a then trimStart_rev r3 else s
          | EmptyString => s
          end
      | EmptyString => s
      end
  | EmptyString => EmptyString
  end.

Definition trimEnd (s : string) : string :=
  String.rev (trimStart_rev (String.rev s)).

(** [String.prototype.trim]. *)
Definition trim (s : string) : string := trimEnd (trimStart s).

(** [s.split("\n")]: the pieces between line feeds, one more than there
    are line feeds. *)
Fixpoint split_on (sep : ascii) (s : string) : list string :=
  match s with
  | EmptyString => [EmptyString]
  | String c r =>
      if Ascii.eqb c sep then EmptyString :: split_on sep r
      else match split_on sep r with
           | p :: ps => String c p :: ps
           | [] => [String c EmptyString]
           end
  end.

Definition LF : ascii := ascii_of_nat 10.

(** A string is falsy exactly when it is empty. *)
Definition truthy (s : string) : bool :=
  match s with EmptyString => false | _ => true end.

(** *** Numbers

    A Number is a binary64: NaN, an infinity, or a finite value, kept as
    the rational it equals.  The two zeros are one value here. *)

Inductive float : Type :=
  | FNaN
  | FInfinity (neg : bool)
  | FNum (q : Q).

(** [n / d] rounded to an integer, ties to the even one. *)
Definition round_half_even (n d : Z) : Z :=
  let q := n / d in
  let r := n mod d in
  if 2 * r <? d then q
  else if d <? 2 * r then q + 1
  else if Z.even q then q else q + 1.

(** The Number of a mathematical integer: itself when it fits in 53 bits,
    otherwise the nearest multiple of the power of two that leaves 53
    bits, or an infinity from [2^1024] on. *)
Definition binary64_of_Z (z : Z) : float :=
  let a := Z.abs z in
  let e := Z.log2 a - 52 in
  if e <=? 0 then FNum (inject_Z z)
  else
    let m := round_half_even a (2 ^ e) in
    if 2 ^ 1024 <=? m * 2 ^ e then FInfinity (z <? 0)
    else FNum (inject_Z (Z.sgn z * (m * 2 ^ e))).

(** [m * 2^e] as a reduced fraction. *)
Definition dyadic (m e : Z) : Q :=
  if 0 <=? e then inject_Z (m * 2 ^ e)
  else Qred (Qmake m (Z.to_pos (2 ^ (- e)))).

(** [n / d / 2^e] as a fraction of integers. *)
Definition scaled (n d e : Z) : Z * Z :=
  (n * 2 ^ Z.max 0 (- e), d * 2 ^ Z.max 0 e).

(** The Number of a rational: the nearest binary64, ties to even.  The
    exponent [e] leaves a 53-bit significand, and is not below that of the
    subnormals. *)
Definition binary64_of_Q (x : Q) : float :=
  let n := Z.abs (Qnum x) in
  let d := Zpos (Qden x) in
  if n =? 0 then FNum 0 else
  let e0 := Z.log2 n - Z.log2 d - 52 in
  let below := fst (scaled n d e0) <? 2 ^ 52 * snd (scaled n d e0) in
  let e := Z.max (if below then e0 - 1 else e0) (- 1074) in
  let m := round_half_even (fst (scaled n d e)) (snd (scaled n d e)) in
  if (0 <=? e) && (2 ^ 1024 <=? m * 2 ^ e) then FInfinity (Qnum x <? 0)
  else FNum (dyadic (Z.sgn (Qnum x) * m) e).

Definition digit (c : ascii) : option Z :=
  let n := code c in
  if (48 <=? n) && (n <=? 57) then Some (n - 48) else None.

(** The longest prefix of decimal digits, and what follows it. *)
Fixpoint span_digits (s : string) : list Z * string :=
  match s with
  | String c r =>
      match digit c with
      | Some d => let '(ds, rest) := span_digits r in (d :: ds, rest)
      | None => ([], s)
      end
  | EmptyString => ([], EmptyString)
  end.

Definition digits_value (ds : list Z) : Z :=
  fold_left (fun acc d => 10 * acc + d) ds 0.

(** An optional sign: [true] for a minus. *)
Definition take_sign (s : string) : bool * string :=
  match s with
  | String c r =>
      if Ascii.eqb c "-" then (true, r)
      else if Ascii.eqb c "+" then (false, r)
      else (false, s)
  | EmptyString => (false, s)
  end.

Definition with_sign (neg : bool) (z : Z) : Z := if neg then - z else z.

(** The signed mathematical integer [parseInt(s, 10)] reads: leading white
    space, a sign, then the longest run of decimal digits; [None] when
    there is no digit.  With radix 10 no [0x] prefix is stripped. *)
Definition mathInt (s : string) : option Z :=
  let '(neg, body) := take_sign (trimStart s) in
  match span_digits body with
  | ([], _) => None
  | (ds, _) => Some (with_sign neg (digits_value ds))
  end.

(** [parseInt(s, 10)]: NaN, or the Number of the integer read. *)
Definition parseInt (s : string) : float :=
  match mathInt s with
  | None => FNaN
  | Some z => binary64_of_Z z
  end.

Fixpoint strip_prefix (p s : string) : option string :=
  match p, s with
  | EmptyString, _ => Some s
  | String a p', String b s' => if Ascii.eqb a b then strip_prefix p' s' else None
  | String _ _, EmptyString => None
  end.

(** [ExponentPart]: [e] or [E], an optional sign, at least one digit.
    Anything else is not part of the literal and counts as exponent 0. *)
Definition exponent (s : string) : Z :=
  match s with
  | String c r =>
      if Ascii.eqb c "e" || Ascii.eqb c "E" then
        let '(neg, body) := take_sign r in
        match span_digits body with
        | ([], _) => 0
        | (ds, _) => with_sign neg (digits_value ds)
        end
      else 0
  | EmptyString => 0
  end.

(** [m * 10^e] as a reduced fraction. *)
Definition scale10 (m e : Z) : Q :=
  if 0 <=? e then Qmake (m * 10 ^ e) 1
  else Qred (Qmake m (Z.to_pos (10 ^ (- e)))).

(** [parseFloat(s)]: the Number of the longest prefix of the trimmed
    string that is a [StrDecimalLiteral]. *)
Definition parseFloat (s : string) : float :=
  let '(neg, body) := take_sign (trimStart s) in
  match strip_prefix "Infinity" body with
  | Some _ => FInfinity neg
  | None =>
      let '(ip, r1) := span_digits body in
      let '(fp, r2) :=
        match r1 with
        | String c r =>
            if Ascii.eqb c "." then
              let '(fp, r2) := span_digits r in
              match ip, fp with
              | [], [] => ([], r1)
              | _, _ => (fp, r2)
              end
            else ([], r1)
        | EmptyString => ([], r1)
        end in
      match ip, fp with
      | [], [] => FNaN
      | _, _ =>
          let m := digits_value (ip ++ fp) in
          let e := exponent r2 - Z.of_nat (length fp) in
          binary64_of_Q (scale10 (with_sign neg m) e)
      end
  end.

End JS.

(** ** Data model *)

(** The six models of the store the script writes to. *)
Inductive Entity : Type :=
  | Product | Cart | CartItem | Favorite | Order | Review.

#[global] Instance Entity_eq_dec : EqDecision Entity.
Proof. solve_decision. Defined.

Definition Entity_code (e : Entity) : nat :=
  match e with
  | Product => 0 | Cart => 1 | CartItem => 2
  | Favorite => 3 | Order => 4 | Review => 5
  end%nat.

Definition Entity_decode (n : nat) : option Entity :=
  match n with
  | 0 => Some Product | 1 => Some Cart | 2 => Some CartItem
  | 3 => Some Favorite | 4 => Some Order | 5 => Some Review
  | _ => None
  end%nat.

#[global] Instance Entity_countable : Countable Entity.
Proof.
  apply (inj_countable Entity_code Entity_decode).
  intros []; reflexivity.
Defined.

(** The row interfaces of the script, each with the field names of the
    source.  All fields are strings as csv-parse delivers them; the fields
    of [FavoriteRow] are declared optional. *)

Module ProductRow.
Record t : Type := mk {
    id : string; name : string; company : string; description : string;
    featured : string; image : string; price : string;
    createdAt : string; updatedAt : string; clerkId : string }.
End ProductRow.

Module CartRow.
Record t : Type := mk {
    id : string; clerkId : string; numItemsInCart : string;
    cartTotal : string; shipping : string; tax : string; taxRate : string;
    orderTotal : string; createdAt : string; updatedAt : string }.
End CartRow.

Module CartItemRow.
Record t : Type := mk {
    id : string; productId : string; cartId : string; amount : string;
    createdAt : string; updatedAt : string }.
End CartItemRow.

Module FavoriteRow.
Record t : Type := mk {
    id : option string; clerkId : option string; productId : option string;
    createdAt : option string; updatedAt : option string }.
End FavoriteRow.

Module OrderRow.
Record t : Type := mk {
    id : string; clerkId : string; products : string; orderTotal : string;
    tax : string; shipping : string; email : string; isPaid : string;
    createdAt : string; updatedAt : string }.
End OrderRow.

Module ReviewRow.
Record t : Type := mk {
    id : string; clerkId : string; rating : string; comment : string;
    authorName : string; authorImageUrl : string;
    createdAt : string; updatedAt : string; productId : string }.
End ReviewRow.

(** A [Date] object is its time value in milliseconds since the epoch;
    [None] is the NaN time value of an Invalid Date. *)
Definition Date : Type := option Z.

(** The typed values of the objects handed to the store. *)
Inductive Value : Type :=
  | VString (s : string)
  | VInt (n : JS.float)
  | VFloat (f : JS.float)
  | VBool (b : bool)
  | VDate (d : Date).

(** An object literal: field name to value. *)
Abbreviation Fields := (gmap string Value).

(** The argument of [prisma.<model>.upsert]. *)
Record UpsertArgs : Type := mkUpsert {
  where_id : string;
  update : Fields;
  create : Fields }.

(** The stored state: the rows of every model, by model and [id]. *)
Abbreviation DB := (gmap (Entity * string) Fields).

(** Modelled from the spec: the store capability [upsert(entityType, key,
    fields)], "an operation that inserts a new record or updates the
    existing one matching a given key".  The Prisma client is not part of
    the script.  An existing row takes the fields of [update] and keeps its
    others; an absent one is created from [create]. *)
Definition upsert_db (e : Entity) (a : UpsertArgs) (d : DB) : DB :=
  match d !! (e, where_id a) with
  | Some row => <[(e, where_id a) := update a ∪ row]> d
  | None => <[(e, where_id a) := create a]> d
  end.

(** ** The world the script acts on *)

Definition Exn : Type := string.

Inductive Level : Type := LOG | WARN | ERROR.

(** One call of [console.log], [console.warn] or [console.error]: the
    message, and the error object when one is passed along. *)
Record Entry : Type := mkEntry {
  level : Level;
  message : string;
  detail : option Exn }.

(** A call received by the Prisma client: an upsert, with whether the store
    accepted it, or [$disconnect]. *)
Inductive Call : Type :=
  | CUpsert (e : Entity) (a : UpsertArgs) (accepted : bool)
  | CDisconnect.

Record World : Type := mkWorld {
  db : DB;
  console : list Entry;   (* oldest first *)
  calls : list Call;      (* oldest first *)
  clock_reads : nat }.

Definition set_db (d : DB) (w : World) : World :=
  mkWorld d (console w) (calls w) (clock_reads w).
Definition add_entry (x : Entry) (w : World) : World :=
  mkWorld (db w) (console w ++ [x]) (calls w) (clock_reads w).
Definition add_call (c : Call) (w : World) : World :=
  mkWorld (db w) (console w) (calls w ++ [c]) (clock_reads w).
Definition tick (w : World) : World :=
  mkWorld (db w) (console w) (calls w) (S (clock_reads w)).

(** One object per parsed record of csv-parse with [columns: true]:
    header name to trimmed cell. *)
Abbreviation CsvRecord := (gmap string string).

(** The collaborators of the script: what it calls and does not define. *)
Record Env : Type := mkEnv {
  (** the file system: the paths for which [fs.existsSync] is true, each
      with what [fs.readFileSync(_, "utf-8")] does on it: it throws (a
      directory, a file that may not be read) or returns the content *)
  files : gmap string (Exn + string);
  (** csv-parse's [parse(content, {columns, skip_empty_lines, trim})],
      which returns the records or throws *)
  csv_parse : string -> Exn + list CsvRecord;
  (** [Date.parse]: the time value of a date string, [None] for NaN *)
  Date_parse : string -> option Z;
  (** the time the n-th evaluation of [new Date()] reads *)
  clock : nat -> Z;
  (** the store's verdict on an upsert: the error it throws, if any *)
  store_error : World -> Entity -> UpsertArgs -> option Exn }.

(** ** The monad of the script: state and exceptions *)

Inductive result (A : Type) : Type :=
  | Ok (a : A)
  | Throw (e : Exn).
Arguments Ok {A} a.
Arguments Throw {A} e.

Definition M (A : Type) : Type := World -> result A * World.

#[global] Instance M_ret : MRet M := fun A a w => (Ok a, w).
#[global] Instance M_bind : MBind M := fun A B f m w =>
  match m w with
  | (Ok a, w') => f a w'
  | (Throw e, w') => (Throw e, w')
  end.

Definition throw {A} (e : Exn) : M A := fun w => (Throw e, w).

(** [try { m } catch (error) { h error }] *)
Definition try_catch {A} (m : M A) (h : Exn -> M A) : M A := fun w =>
  match m w with
  | (Ok a, w') => (Ok a, w')
  | (Throw e, w') => h e w'
  end.

(** [try { m } finally { f }] *)
Definition finally {A} (m : M A) (f : M unit) : M A := fun w =>
  match m w with
  | (r, w') =>
      match f w' with
      | (Ok _, w'') => (r, w'')
      | (Throw e, w'') => (Throw e, w'')
      end
  end.

(** [for (const x of xs) { body x }] *)
Fixpoint for_of {A} (xs : list A) (body : A -> M unit) : M unit :=
  match xs with
  | [] => mret tt
  | x :: rest => body x ;; for_of rest body
  end.

Definition console_log (msg : string) : M unit :=
  fun w => (Ok tt, add_entry (mkEntry LOG msg None) w).
Definition console_warn (msg : string) : M unit :=
  fun w => (Ok tt, add_entry (mkEntry WARN msg None) w).
Definition console_error (msg : string) (error : option Exn) : M unit :=
  fun w => (Ok tt, add_entry (mkEntry ERROR msg error) w).

(** ** The script *)

(** [records as T[]]: a parsed record seen through a row interface.  The
    cast checks nothing.  A column a row interface declares as [string] is
    read with [cell]; the data model's invariant is that every declared
    column is a key of the record, and an absent one reads as the empty
    string here.  The optional fields of [FavoriteRow] are [undefined]
    ([None]) when their column is absent. *)
Class RowOf (T : Type) : Type := of_record : CsvRecord -> T.

Definition cell (r : CsvRecord) (k : string) : string := default "" (r !! k).

#[global] Instance ProductRow_of : RowOf ProductRow.t := fun r =>
  ProductRow.mk (cell r "id") (cell r "name") (cell r "company")
    (cell r "description") (cell r "featured") (cell r "image")
    (cell r "price") (cell r "createdAt") (cell r "updatedAt")
    (cell r "clerkId").

#[global] Instance CartRow_of : RowOf CartRow.t := fun r =>
  CartRow.mk (cell r "id") (cell r "clerkId") (cell r "numItemsInCart")
    (cell r "cartTotal") (cell r "shipping") (cell r "tax")
    (cell r "taxRate") (cell r "orderTotal") (cell r "createdAt")
    (cell r "updatedAt").

#[global] Instance CartItemRow_of : RowOf CartItemRow.t := fun r =>
  CartItemRow.mk (cell r "id") (cell r "productId") (cell r "cartId")
    (cell r "amount") (cell r "createdAt") (cell r "updatedAt").

#[global] Instance FavoriteRow_of : RowOf FavoriteRow.t := fun r =>
  FavoriteRow.mk (r !! "id") (r !! "clerkId") (r !! "productId")
    (r !! "createdAt") (r !! "updatedAt").

#[global] Instance OrderRow_of : RowOf OrderRow.t := fun r =>
  OrderRow.mk (cell r "id") (cell r "clerkId") (cell r "products")
    (cell r "orderTotal") (cell r "tax") (cell r "shipping")
    (cell r "email") (cell r "isPaid") (cell r "createdAt")
    (cell r "updatedAt").

#[global] Instance ReviewRow_of : RowOf ReviewRow.t := fun r =>
  ReviewRow.mk (cell r "id") (cell r "clerkId") (cell r "rating")
    (cell r "comment") (cell r "authorName") (cell r "authorImageUrl")
    (cell r "createdAt") (cell r "updatedAt") (cell r "productId").

Definition CSV_DIR : string :=
  "/Users/arnob_t78/Papers/Project Doc/db-migration/next-store".

(** [path.join(CSV_DIR, file)] for a plain file name. *)
Definition path_join (dir file : string) : string := dir ++ "/" ++ file.

(** The decimal numeral a template literal prints for an array length. *)
Definition show_nat (n : nat) : string :=
  NilEmpty.string_of_uint (Nat.to_uint n).

Definition NL : string := String JS.LF EmptyString.

(** A value of type [string | undefined] in a condition or a template. *)
Definition falsy (o : option string) : bool :=
  match o with
  | Some s => negb (JS.truthy s)
  | None => true
  end.

Definition show (o : option string) : string := default "undefined" o.

Definition parseBoolean (value : string) : bool :=
  String.eqb value "true" || String.eqb value "1"
  || String.eqb value "t" || String.eqb value "True".

Definition parseIntValue (value : string) : M JS.float :=
  match JS.parseInt value with
  | JS.FNaN =>
      console_warn ("⚠️  Failed to parse integer: " ++ value ++ ", defaulting to 0") ;;
      mret (JS.FNum 0%Q)
  | parsed => mret parsed
  end.

Definition parseFloatValue (value : string) : M JS.float :=
  match JS.parseFloat value with
  | JS.FNaN =>
      console_warn ("⚠️  Failed to parse float: " ++ value ++ ", defaulting to 0") ;;
      mret (JS.FNum 0%Q)
  | parsed => mret parsed
  end.

Section Script.

Variable env : Env.

Definition parseCSV {T} `{RowOf T} (filePath : string) : M (list T) :=
  match files env !! filePath with
  | None =>
      console_warn ("⚠️  CSV file not found: " ++ filePath) ;;
      mret []
  | Some (inl error) => throw error
  | Some (inr content) =>
      if negb (JS.truthy (JS.trim content))
         || (length (JS.split_on JS.LF (JS.trim content)) <=? 1)%nat
      then
        console_warn ("⚠️  CSV file is empty: " ++ filePath) ;;
        mret []
      else
        match csv_parse env content with
        | inl error => throw error
        | inr records => mret (of_record <$> records)
        end
  end.

(** [new Date(s)] *)
Definition new_Date (s : string) : Date := Date_parse env s.

(** [new Date()] *)
Definition new_Date_now : M Date := fun w =>
  (Ok (Some (clock env (clock_reads w))), tick w).

(** [await prisma.<model>.upsert(args)] *)
Definition prisma_upsert (e : Entity) (a : UpsertArgs) : M unit := fun w =>
  match store_error env w e a with
  | Some error => (Throw error, add_call (CUpsert e a false) w)
  | None =>
      (Ok tt, add_call (CUpsert e a true) (set_db (upsert_db e a (db w)) w))
  end.

(** [await prisma.$disconnect()] *)
Definition prisma_disconnect : M unit := fun w =>
  (Ok tt, add_call CDisconnect w).

(** *** Products *)

Definition product_args (product : ProductRow.t) : M UpsertArgs :=
  price_u ← parseIntValue product.(ProductRow.price);
  price_c ← parseIntValue product.(ProductRow.price);
  mret {|
    where_id := product.(ProductRow.id);
    update := list_to_map [
      ("name", VString product.(ProductRow.name));
      ("company", VString product.(ProductRow.company));
      ("description", VString product.(ProductRow.description));
      ("featured", VBool (parseBoolean product.(ProductRow.featured)));
      ("image", VString product.(ProductRow.image));
      ("price", VInt price_u);
      ("clerkId", VString product.(ProductRow.clerkId));
      ("createdAt", VDate (new_Date product.(ProductRow.createdAt)));
      ("updatedAt", VDate (new_Date product.(ProductRow.updatedAt))) ];
    create := list_to_map [
      ("id", VString product.(ProductRow.id));
      ("name", VString product.(ProductRow.name));
      ("company", VString product.(ProductRow.company));
      ("description", VString product.(ProductRow.description));
      ("featured", VBool (parseBoolean product.(ProductRow.featured)));
      ("image", VString product.(ProductRow.image));
      ("price", VInt price_c);
      ("clerkId", VString product.(ProductRow.clerkId));
      ("createdAt", VDate (new_Date product.(ProductRow.createdAt)));
      ("updatedAt", VDate (new_Date product.(ProductRow.updatedAt))) ] |}.

(** The body of the loop of [seedProducts]. *)
Definition seedProducts_row (product : ProductRow.t) : M unit :=
  try_catch
    (args ← product_args product; prisma_upsert Product args)
    (fun error =>
       console_error ("❌ Error seeding product " ++ product.(ProductRow.id) ++ ":")
         (Some error)).

Definition seedProducts : M unit :=
  console_log "🌱 Seeding products..." ;;
  products ← parseCSV (path_join CSV_DIR "Product.csv");
  if (length products =? 0)%nat then
    console_log "⚠️  No products to seed"
  else
    for_of products seedProducts_row ;;
    console_log ("✅ Seeded " ++ show_nat (length products) ++ " products").

(** *** Carts *)

Definition cart_args (cart : CartRow.t) : M UpsertArgs :=
  numItemsInCart_u ← parseIntValue cart.(CartRow.numItemsInCart);
  cartTotal_u ← parseIntValue cart.(CartRow.cartTotal);
  shipping_u ← parseIntValue cart.(CartRow.shipping);
  tax_u ← parseIntValue cart.(CartRow.tax);
  taxRate_u ← parseFloatValue cart.(CartRow.taxRate);
  orderTotal_u ← parseIntValue cart.(CartRow.orderTotal);
  numItemsInCart_c ← parseIntValue cart.(CartRow.numItemsInCart);
  cartTotal_c ← parseIntValue cart.(CartRow.cartTotal);
  shipping_c ← parseIntValue cart.(CartRow.shipping);
  tax_c ← parseIntValue cart.(CartRow.tax);
  taxRate_c ← parseFloatValue cart.(CartRow.taxRate);
  orderTotal_c ← parseIntValue cart.(CartRow.orderTotal);
  mret {|
    where_id := cart.(CartRow.id);
    update := list_to_map [
      ("clerkId", VString cart.(CartRow.clerkId));
      ("numItemsInCart", VInt numItemsInCart_u);
      ("cartTotal", VInt cartTotal_u);
      ("shipping", VInt shipping_u);
      ("tax", VInt tax_u);
      ("taxRate", VFloat taxRate_u);
      ("orderTotal", VInt orderTotal_u);
      ("createdAt", VDate (new_Date cart.(CartRow.createdAt)));
      ("updatedAt", VDate (new_Date cart.(CartRow.updatedAt))) ];
    create := list_to_map [
      ("id", VString cart.(CartRow.id));
      ("clerkId", VString cart.(CartRow.clerkId));
      ("numItemsInCart", VInt numItemsInCart_c);
      ("cartTotal", VInt cartTotal_c);
      ("shipping", VInt shipping_c);
      ("tax", VInt tax_c);
      ("taxRate", VFloat taxRate_c);
      ("orderTotal", VInt orderTotal_c);
      ("createdAt", VDate (new_Date cart.(CartRow.createdAt)));
      ("updatedAt", VDate (new_Date cart.(CartRow.updatedAt))) ] |}.

Definition seedCarts_row (cart : CartRow.t) : M unit :=
  try_catch
    (args ← cart_args cart; prisma_upsert Cart args)
    (fun error =>
       console_error ("❌ Error seeding cart " ++ cart.(CartRow.id) ++ ":")
         (Some error)).

Definition seedCarts : M unit :=
  console_log "🌱 Seeding carts..." ;;
  carts ← parseCSV (path_join CSV_DIR "Cart.csv");
  if (length carts =? 0)%nat then
    console_log "⚠️  No carts to seed"
  else
    for_of carts seedCarts_row ;;
    console_log ("✅ Seeded " ++ show_nat (length carts) ++ " carts").

(** *** Cart items *)

Definition cartItem_args (cartItem : CartItemRow.t) : M UpsertArgs :=
  amount_u ← parseIntValue cartItem.(CartItemRow.amount);
  amount_c ← parseIntValue cartItem.(CartItemRow.amount);
  mret {|
    where_id := cartItem.(CartItemRow.id);
    update := list_to_map [
      ("productId", VString cartItem.(CartItemRow.productId));
      ("cartId", VString cartItem.(CartItemRow.cartId));
      ("amount", VInt amount_u);
      ("createdAt", VDate (new_Date cartItem.(CartItemRow.createdAt)));
      ("updatedAt", VDate (new_Date cartItem.(CartItemRow.updatedAt))) ];
    create := list_to_map [
      ("id", VString cartItem.(CartItemRow.id));
      ("productId", VString cartItem.(CartItemRow.productId));
      ("cartId", VString cartItem.(CartItemRow.cartId));
      ("amount", VInt amount_c);
      ("createdAt", VDate (new_Date cartItem.(CartItemRow.createdAt)));
      ("updatedAt", VDate (new_Date cartItem.(CartItemRow.updatedAt))) ] |}.

Definition seedCartItems_row (cartItem : CartItemRow.t) : M unit :=
  try_catch
    (args ← cartItem_args cartItem; prisma_upsert CartItem args)
    (fun error =>
       console_error ("❌ Error seeding cart item " ++ cartItem.(CartItemRow.id) ++ ":")
         (Some error)).

Definition seedCartItems : M unit :=
  console_log "🌱 Seeding cart items..." ;;
  cartItems ← parseCSV (path_join CSV_DIR "CartItem.csv");
  if (length cartItems =? 0)%nat then
    console_log "⚠️  No cart items to seed"
  else
    for_of cartItems seedCartItems_row ;;
    console_log ("✅ Seeded " ++ show_nat (length cartItems) ++ " cart items").

(** *** Favorites *)

(** [s ? new Date(s) : new Date()] *)
Definition date_or_now (s : option string) : M Date :=
  if falsy s then new_Date_now else mret (new_Date (show s)).

Definition favorite_args (favorite : FavoriteRow.t) : M UpsertArgs :=
  createdAt_u ← date_or_now favorite.(FavoriteRow.createdAt);
  updatedAt_u ← date_or_now favorite.(FavoriteRow.updatedAt);
  createdAt_c ← date_or_now favorite.(FavoriteRow.createdAt);
  updatedAt_c ← date_or_now favorite.(FavoriteRow.updatedAt);
  mret {|
    where_id := show favorite.(FavoriteRow.id);
    update := list_to_map [
      ("clerkId", VString (show favorite.(FavoriteRow.clerkId)));
      ("productId", VString (show favorite.(FavoriteRow.productId)));
      ("createdAt", VDate createdAt_u);
      ("updatedAt", VDate updatedAt_u) ];
    create := list_to_map [
      ("id", VString (show favorite.(FavoriteRow.id)));
      ("clerkId", VString (show favorite.(FavoriteRow.clerkId)));
      ("productId", VString (show favorite.(FavoriteRow.productId)));
      ("createdAt", VDate createdAt_c);
      ("updatedAt", VDate updatedAt_c) ] |}.

Definition seedFavorites_row (favorite : FavoriteRow.t) : M unit :=
  if falsy favorite.(FavoriteRow.id)
     || falsy favorite.(FavoriteRow.clerkId)
     || falsy favorite.(FavoriteRow.productId)
  then mret tt (* continue: skip invalid rows *)
  else
    try_catch
      (args ← favorite_args favorite; prisma_upsert Favorite args)
      (fun error =>
         console_error ("❌ Error seeding favorite " ++ show favorite.(FavoriteRow.id) ++ ":")
           (Some error)).

Definition seedFavorites : M unit :=
  console_log "🌱 Seeding favorites..." ;;
  favorites ← parseCSV (path_join CSV_DIR "Favorite.csv");
  if (length favorites =? 0)%nat then
    console_log "⚠️  No favorites to seed (file is empty)"
  else
    for_of favorites seedFavorites_row ;;
    console_log ("✅ Seeded " ++ show_nat (length favorites) ++ " favorites").

(** *** Orders *)

Definition order_args (order : OrderRow.t) : M UpsertArgs :=
  products_u ← parseIntValue order.(OrderRow.products);
  orderTotal_u ← parseIntValue order.(OrderRow.orderTotal);
  tax_u ← parseIntValue order.(OrderRow.tax);
  shipping_u ← parseIntValue order.(OrderRow.shipping);
  products_c ← parseIntValue order.(OrderRow.products);
  orderTotal_c ← parseIntValue order.(OrderRow.orderTotal);
  tax_c ← parseIntValue order.(OrderRow.tax);
  shipping_c ← parseIntValue order.(OrderRow.shipping);
  mret {|
    where_id := order.(OrderRow.id);
    update := list_to_map [
      ("clerkId", VString order.(OrderRow.clerkId));
      ("products", VInt products_u);
      ("orderTotal", VInt orderTotal_u);
      ("tax", VInt tax_u);
      ("shipping", VInt shipping_u);
      ("email", VString order.(OrderRow.email));
      ("isPaid", VBool (parseBoolean order.(OrderRow.isPaid)));
      ("createdAt", VDate (new_Date order.(OrderRow.createdAt)));
      ("updatedAt", VDate (new_Date order.(OrderRow.updatedAt))) ];
    create := list_to_map [
      ("id", VString order.(OrderRow.id));
      ("clerkId", VString order.(OrderRow.clerkId));
      ("products", VInt products_c);
      ("orderTotal", VInt orderTotal_c);
      ("tax", VInt tax_c);
      ("shipping", VInt shipping_c);
      ("email", VString order.(OrderRow.email));
      ("isPaid", VBool (parseBoolean order.(OrderRow.isPaid)));
      ("createdAt", VDate (new_Date order.(OrderRow.createdAt)));
      ("updatedAt", VDate (new_Date order.(OrderRow.updatedAt))) ] |}.

Definition seedOrders_row (order : OrderRow.t) : M unit :=
  try_catch
    (args ← order_args order; prisma_upsert Order args)
    (fun error =>
       console_error ("❌ Error seeding order " ++ order.(OrderRow.id) ++ ":")
         (Some error)).

Definition seedOrders : M unit :=
  console_log "🌱 Seeding orders..." ;;
  orders ← parseCSV (path_join CSV_DIR "Order.csv");
  if (length orders =? 0)%nat then
    console_log "⚠️  No orders to seed"
  else
    for_of orders seedOrders_row ;;
    console_log ("✅ Seeded " ++ show_nat (length orders) ++ " orders").

(** *** Reviews *)

Definition review_args (review : ReviewRow.t) : M UpsertArgs :=
  rating_u ← parseIntValue review.(ReviewRow.rating);
  rating_c ← parseIntValue review.(ReviewRow.rating);
  mret {|
    where_id := review.(ReviewRow.id);
    update := list_to_map [
      ("clerkId", VString review.(ReviewRow.clerkId));
      ("rating", VInt rating_u);
      ("comment", VString review.(ReviewRow.comment));
      ("authorName", VString review.(ReviewRow.authorName));
      ("authorImageUrl", VString review.(ReviewRow.authorImageUrl));
      ("productId", VString review.(ReviewRow.productId));
      ("createdAt", VDate (new_Date review.(ReviewRow.createdAt)));
      ("updatedAt", VDate (new_Date review.(ReviewRow.updatedAt))) ];
    create := list_to_map [
      ("id", VString review.(ReviewRow.id));
      ("clerkId", VString review.(ReviewRow.clerkId));
      ("rating", VInt rating_c);
      ("comment", VString review.(ReviewRow.comment));
      ("authorName", VString review.(ReviewRow.authorName));
      ("authorImageUrl", VString review.(ReviewRow.authorImageUrl));
      ("productId", VString review.(ReviewRow.productId));
      ("createdAt", VDate (new_Date review.(ReviewRow.createdAt)));
      ("updatedAt", VDate (new_Date review.(ReviewRow.updatedAt))) ] |}.

Definition seedReviews_row (review : ReviewRow.t) : M unit :=
  try_catch
    (args ← review_args review; prisma_upsert Review args)
    (fun error =>
       console_error ("❌ Error seeding review " ++ review.(ReviewRow.id) ++ ":")
         (Some error)).

Definition seedReviews : M unit :=
  console_log "🌱 Seeding reviews..." ;;
  reviews ← parseCSV (path_join CSV_DIR "Review.csv");
  if (length reviews =? 0)%nat then
    console_log "⚠️  No reviews to seed"
  else
    for_of reviews seedReviews_row ;;
    console_log ("✅ Seeded " ++ show_nat (length reviews) ++ " reviews").

(** *** The whole run *)

Definition main : M unit :=
  console_log ("🚀 Starting database seed..." ++ NL) ;;
  console_log ("📂 CSV Directory: " ++ CSV_DIR ++ NL) ;;
  finally
    (try_catch
       ((* seed in order to maintain foreign key relationships *)
        seedProducts ;;    (* products first (no dependencies) *)
        seedCarts ;;       (* carts (no dependencies on other tables) *)
        seedCartItems ;;   (* cart items (depends on Product and Cart) *)
        seedFavorites ;;   (* favorites (depends on Product) *)
        seedOrders ;;      (* orders (no dependencies) *)
        seedReviews ;;     (* reviews (depends on Product) *)
        console_log (NL ++ "✨ Database seeded successfully!"))
       (fun error =>
          console_error "❌ Error seeding database:" (Some error) ;;
          throw error))
    prisma_disconnect.

(** [main().catch(error => { console.error(error); process.exit(1) })]:
    the exit status of the process with the world it leaves. *)
Definition script (w : World) : Z * World :=
  match main w with
  | (Ok _, w') => (0, w')
  | (Throw error, w') => (1, add_entry (mkEntry ERROR error None) w')
  end.

End Script.

(** ** Reference collaborators

    Concrete instances of the capabilities of [Env], to run the script on
    explicit inputs.  The properties below are stated for every [Env]; these
    instances only supply inputs for their examples. *)

Module Ref.

(** csv-parse on plain content: cells separated by commas, records ended
    by line feeds, no quoting.  With [columns: true] the first record names
    the columns; with [trim: true] every cell is trimmed; with
    [skip_empty_lines: true] empty lines give no record.  A record whose
    number of cells differs from the number of columns makes csv-parse
    throw, naming the line. *)
Definition cells (line : string) : list string :=
  JS.trim <$> JS.split_on "," line.

Definition record_of (columns row : list string) : CsvRecord :=
  fold_left (fun r '(k, v) => <[k := v]> r) (zip columns row) ∅.

Fixpoint records_of (columns : list string) (lines : list (nat * string))
  : Exn + list CsvRecord :=
  match lines with
  | [] => inr []
  | (n, line) :: rest =>
      let row := cells line in
      if (length row =? length columns)%nat then
        match records_of columns rest with
        | inr rs => inr (record_of columns row :: rs)
        | inl error => inl error
        end
      else
        inl ("Invalid Record Length: columns length is "
             ++ show_nat (length columns) ++ ", got " ++ show_nat (length row)
             ++ " on line " ++ show_nat n)
  end.

(** The lines with their numbers, from 1. *)
Definition numbered (ls : list string) : list (nat * string) :=
  zip (seq 1 (length ls)) ls.

Definition csv_plain (content : string) : Exn + list CsvRecord :=
  match filter (fun nl => JS.truthy nl.2 = true)
          (numbered (JS.split_on JS.LF content)) with
  | [] => inr []
  | (_, header) :: lines => records_of (cells header) lines
  end.

(** [Date.parse] on the two forms of the date-time string format that
    carry their own time zone: [YYYY-MM-DD] (UTC) and
    [YYYY-MM-DDTHH:mm:ss.sssZ].  Engines accept further forms; here any
    other string is NaN. *)
Fixpoint number (n : nat) (s : string) (acc : Z) : option (Z * string) :=
  match n with
  | O => Some (acc, s)
  | S n' =>
      match s with
      | String c r => d ← JS.digit c; number n' r (10 * acc + d)
      | EmptyString => None
      end
  end.

Definition expect (c : ascii) (s : string) : option string :=
  match s with
  | String c' r => if Ascii.eqb c c' then Some r else None
  | EmptyString => None
  end.

Definition leap (y : Z) : bool :=
  ((y mod 4 =? 0) && negb (y mod 100 =? 0)) || (y mod 400 =? 0).

Definition days_in_month (y m : Z) : Z :=
  if m =? 2 then (if leap y then 29 else 28)
  else if (m =? 4) || (m =? 6) || (m =? 9) || (m =? 11) then 30
  else 31.

(** Days from 1970-01-01 to the given civil date. *)
Definition days_from_civil (y m d : Z) : Z :=
  let y' := if m <=? 2 then y - 1 else y in
  let era := y' / 400 in
  let yoe := y' - era * 400 in
  let doy := (153 * (if 2 <? m then m - 3 else m + 9) + 2) / 5 + d - 1 in
  let doe := yoe * 365 + yoe / 4 - yoe / 100 + doy in
  era * 146097 + doe - 719468.

Definition iso_parse (s : string) : option Z :=
  '(y, s) ← number 4 s 0;
  s ← expect "-" s;
  '(m, s) ← number 2 s 0;
  s ← expect "-" s;
  '(d, s) ← number 2 s 0;
  if negb ((1 <=? m) && (m <=? 12) && (1 <=? d) && (d <=? days_in_month y m))
  then None else
  let day := days_from_civil y m d * 86400000 in
  match s with
  | EmptyString => Some day
  | _ =>
      s ← expect "T" s;
      '(hh, s) ← number 2 s 0;
      s ← expect ":" s;
      '(mm, s) ← number 2 s 0;
      s ← expect ":" s;
      '(ss, s) ← number 2 s 0;
      s ← expect "." s;
      '(ms, s) ← number 3 s 0;
      s ← expect "Z" s;
      if JS.truthy s
         || negb ((hh <=? 23) && (mm <=? 59) && (ss <=? 59))
      then None
      else Some (day + ((hh * 60 + mm) * 60 + ss) * 1000 + ms)
  end.

(** A clock that advances by one millisecond per reading. *)
Definition ticking (start : Z) (n : nat) : Z := start + Z.of_nat n.

(** A store that accepts every upsert. *)
Definition accept_all (w : World) (e : Entity) (a : UpsertArgs) : option Exn :=
  None.

(** A store that enforces the foreign keys the comments of [main] name:
    the row to write must reference rows that exist. *)
Definition written (w : World) (e : Entity) (a : UpsertArgs) : Fields :=
  match db w !! (e, where_id a) with
  | Some _ => update a
  | None => create a
  end.

Definition refers (w : World) (row : Fields) (field : string) (target : Entity)
  : bool :=
  match row !! field with
  | Some (VString k) => bool_decide (is_Some (db w !! (target, k)))
  | _ => true
  end.

Definition foreign_keys (w : World) (e : Entity) (a : UpsertArgs) : option Exn :=
  let row := written w e a in
  let ok :=
    match e with
    | CartItem => refers w row "productId" Product && refers w row "cartId" Cart
    | Favorite | Review => refers w row "productId" Product
    | _ => true
    end in
  if ok then None else Some "Foreign key constraint violated".

(** A store that also refuses a row holding an Invalid Date. *)
Definition has_invalid_date (row : Fields) : bool :=
  existsb (fun kv => match kv.2 with VDate None => true | _ => false end)
    (map_to_list row).

Definition strict (w : World) (e : Entity) (a : UpsertArgs) : option Exn :=
  if has_invalid_date (written w e a)
  then Some "Invalid value for argument: Provided Date object is invalid"
  else foreign_keys w e a.


Definition file (name content : string) : string * (Exn + string) :=
  (path_join CSV_DIR name, inr content).

(** A path that exists and cannot be read, such as a directory. *)
Definition unreadable (name error : string) : string * (Exn + string) :=
  (path_join CSV_DIR name, inl error).

Definition env_of (fs : list (string * (Exn + string)))
    (verdict : World -> Entity -> UpsertArgs -> option Exn) : Env :=
  mkEnv (list_to_map fs) csv_plain iso_parse (ticking 1766275200000) verdict.

Definition empty_world : World := mkWorld ∅ [] [] 0.

End Ref.

(** Input files to run the script on. *)
Module Sample.

Definition lines (ls : list string) : string :=
  fold_right (fun l rest => l ++ NL ++ rest) "" ls.

Definition products : string := lines [
  "id,name,company,description,featured,image,price,createdAt,updatedAt,clerkId";
  "P1,Lamp,Acme,A lamp,true,/lamp.png,19,2024-01-15T10:30:00.000Z,2024-01-15T10:30:00.000Z,user_1";
  "P2,Desk,Acme,A desk,TRUE,/desk.png,abc,2024-01-15,2024-01-16,user_1" ].

Definition carts : string := lines [
  "id,clerkId,numItemsInCart,cartTotal,shipping,tax,taxRate,orderTotal,createdAt,updatedAt";
  "c1,user_1,2,38,5,4,0.1,47,2024-01-15,2024-01-15" ].

Definition cartItems : string := lines [
  "id,productId,cartId,amount,createdAt,updatedAt";
  "i1,P9,c1,1,2024-01-15,2024-01-15";
  "i2,P1,c1,2,2024-01-15,2024-01-15" ].

Definition favorites : string := lines [
  "id,clerkId,productId,createdAt,updatedAt";
  "f1,user_1,P1,,";
  "f2,,P1,2024-01-15,2024-01-15" ].

Definition reviews : string := lines [
  "id,clerkId,rating,comment,authorName,authorImageUrl,createdAt,updatedAt,productId";
  "r1,user_1,5,Nice,Ann,/ann.png,2024-01-15,2024-01-15,P1" ].

(** A shop with every file but the orders, on a store that checks
    foreign keys and dates.  Cart item [i1] refers to a product that is
    not there. *)
Definition shop : Env :=
  Ref.env_of
    [ Ref.file "Product.csv" products; Ref.file "Cart.csv" carts;
      Ref.file "CartItem.csv" cartItems; Ref.file "Favorite.csv" favorites;
      Ref.file "Review.csv" reviews ]
    Ref.strict.



(** The shop with a directory where the carts file should be. *)
Definition locked : Env :=
  Ref.env_of
    [ Ref.file "Product.csv" products;
      Ref.unreadable "Cart.csv" "EISDIR: illegal operation on a directory, read";
      Ref.file "Review.csv" reviews ]
    Ref.accept_all.

(** A product file whose data line lacks a cell. *)
Definition short_line : Env :=
  Ref.env_of [ Ref.file "Product.csv" (lines ["id,name"; "P1"]) ]
    Ref.accept_all.

(** A product file with nothing below the header. *)
Definition header_alone : Env :=
  Ref.env_of [ Ref.file "Product.csv" (lines ["id,name,price"; ""; " "]) ]
    Ref.accept_all.

(** A product whose [updatedAt] is no date. *)
Definition undated : ProductRow.t :=
  ProductRow.mk "P3" "Chair" "Acme" "A chair" "false" "/chair.png" "25"
    "2024-01-15" "not-a-date" "user_1".

(** A favorite with a [createdAt] that is no date and no [updatedAt]. *)
Definition undated_favorite : FavoriteRow.t :=
  FavoriteRow.mk (Some "f3") (Some "user_1") (Some "P1")
    (Some "not-a-date") None.

(** A cart item of cart [c1]. *)
Definition item (id productId amount : string) : CartItemRow.t :=
  CartItemRow.mk id productId "c1" amount "2024-01-15" "2024-01-15".

(** The world of the shop once its products and carts are seeded. *)
Definition stocked : World :=
  snd (seedCarts shop (snd (seedProducts shop Ref.empty_world))).



(** A favorite without its [clerkId]. *)
Definition anonymous_favorite : FavoriteRow.t :=
  FavoriteRow.mk (Some "f2") None (Some "P1")
    (Some "2024-01-15") (Some "2024-01-15").

End Sample.

(** ** Vocabulary of the properties

    The script has one function per entity type.  To speak of "every
    entity type" and "every row", the six are gathered here: a row of any
    type, the function that handles it, and what a run reads from the
    files. *)

Inductive Row : Type :=
  | RProduct (product : ProductRow.t)
  | RCart (cart : CartRow.t)
  | RCartItem (cartItem : CartItemRow.t)
  | RFavorite (favorite : FavoriteRow.t)
  | ROrder (order : OrderRow.t)
  | RReview (review : ReviewRow.t).

Definition entity_of (r : Row) : Entity :=
  match r with
  | RProduct _ => Product | RCart _ => Cart | RCartItem _ => CartItem
  | RFavorite _ => Favorite | ROrder _ => Order | RReview _ => Review
  end.

(** The row's key, as the messages and the [where] clause print it. *)
Definition id_of (r : Row) : string :=
  match r with
  | RProduct x => x.(ProductRow.id)
  | RCart x => x.(CartRow.id)
  | RCartItem x => x.(CartItemRow.id)
  | RFavorite x => show x.(FavoriteRow.id)
  | ROrder x => x.(OrderRow.id)
  | RReview x => x.(ReviewRow.id)
  end.

Definition args_of (env : Env) (r : Row) : M UpsertArgs :=
  match r with
  | RProduct x => product_args env x
  | RCart x => cart_args env x
  | RCartItem x => cartItem_args env x
  | RFavorite x => favorite_args env x
  | ROrder x => order_args env x
  | RReview x => review_args env x
  end.

(** The loop body of the row's entity type. *)
Definition seed_row (env : Env) (r : Row) : M unit :=
  match r with
  | RProduct x => seedProducts_row env x
  | RCart x => seedCarts_row env x
  | RCartItem x => seedCartItems_row env x
  | RFavorite x => seedFavorites_row env x
  | ROrder x => seedOrders_row env x
  | RReview x => seedReviews_row env x
  end.

Definition seed (env : Env) (e : Entity) : M unit :=
  match e with
  | Product => seedProducts env | Cart => seedCarts env
  | CartItem => seedCartItems env | Favorite => seedFavorites env
  | Order => seedOrders env | Review => seedReviews env
  end.

(** The order in which [main] calls the six. *)
Definition phases : list Entity :=
  [Product; Cart; CartItem; Favorite; Order; Review].

Definition csv_file (e : Entity) : string :=
  match e with
  | Product => "Product.csv" | Cart => "Cart.csv"
  | CartItem => "CartItem.csv" | Favorite => "Favorite.csv"
  | Order => "Order.csv" | Review => "Review.csv"
  end.

(** The noun of the messages, singular and plural. *)
Definition noun (e : Entity) : string :=
  match e with
  | Product => "product" | Cart => "cart" | CartItem => "cart item"
  | Favorite => "favorite" | Order => "order" | Review => "review"
  end.

Definition as_row (e : Entity) (r : CsvRecord) : Row :=
  match e with
  | Product => RProduct (of_record r) | Cart => RCart (of_record r)
  | CartItem => RCartItem (of_record r) | Favorite => RFavorite (of_record r)
  | Order => ROrder (of_record r) | Review => RReview (of_record r)
  end.

(** Does the string hold this byte? *)
Fixpoint contains (c : ascii) (s : string) : bool :=
  match s with
  | EmptyString => false
  | String c' r => Ascii.eqb c' c || contains c r
  end.

(** Content with no data line: once trimmed, it is empty or a single
    line. *)
Definition header_only (content : string) : bool :=
  negb (contains JS.LF (JS.trim content)).

(** What a run reads from a path: the error thrown by the read or by
    csv-parse, or the records; none for an absent file or one without a
    data line. *)
Definition read_records (env : Env) (path : string) : Exn + list CsvRecord :=
  match files env !! path with
  | None => inr []
  | Some (inl error) => inl error
  | Some (inr content) =>
      if header_only content then inr [] else csv_parse env content
  end.

Definition rows_of (env : Env) (e : Entity) : Exn + list Row :=
  match read_records env (path_join CSV_DIR (csv_file e)) with
  | inl error => inl error
  | inr records => inr (as_row e <$> records)
  end.

(** A favorite row lacking a required identifier is passed over; every
    other row reaches the store. *)
Definition skipped (r : Row) : bool :=
  match r with
  | RFavorite x =>
      falsy x.(FavoriteRow.id) || falsy x.(FavoriteRow.clerkId)
      || falsy x.(FavoriteRow.productId)
  | _ => false
  end.

Definition key_of (r : Row) : Entity * string := (entity_of r, id_of r).

Definition attempted (rows : list Row) : list Row :=
  filter (fun r => skipped r = false) rows.

(** The upserts a run asks for, by model and key, in order: those of the
    rows of each phase that are not skipped, up to the first file that
    cannot be read or that csv-parse rejects.  The store has no part in
    it. *)
Fixpoint planned_from (env : Env) (es : list Entity) : list (Entity * string) :=
  match es with
  | [] => []
  | e :: rest =>
      match rows_of env e with
      | inl _ => []
      | inr rows =>
          (key_of <$> attempted rows) ++ planned_from env rest
      end
  end.

Definition planned (env : Env) : list (Entity * string) :=
  planned_from env phases.

(** The upserts among the calls the client received. *)
Definition upsert_keys (cs : list Call) : list (Entity * string) :=
  omap (fun c => match c with
                 | CUpsert e a _ => Some (e, where_id a)
                 | CDisconnect => None
                 end) cs.

(** The foreign keys the comments of [main] name: cart items depend on
    Product and Cart, favorites and reviews on Product. *)
Definition references (e target : Entity) : bool :=
  match e, target with
  | CartItem, Product | CartItem, Cart => true
  | Favorite, Product => true
  | Review, Product => true
  | _, _ => false
  end.

(** The report of a failed upsert, and the count a phase ends with. *)
Definition error_report (r : Row) (error : Exn) : Entry :=
  mkEntry ERROR ("❌ Error seeding " ++ noun (entity_of r) ++ " " ++ id_of r ++ ":")
    (Some error).

Definition count_report (e : Entity) (n : nat) : Entry :=
  mkEntry LOG ("✅ Seeded " ++ show_nat n ++ " " ++ noun e ++ "s") None.

(** A field of type [string | undefined] that is missing or empty. *)
Definition blank (o : option string) : Prop := o = None ∨ o = Some "".

(** Matching a token up to the case of ASCII letters. *)
Definition lower (c : ascii) : ascii :=
  let n := JS.code c in
  if (65 <=? n) && (n <=? 90) then ascii_of_N (Z.to_N (n + 32)) else c.

Fixpoint lowercase (s : string) : string :=
  match s with
  | EmptyString => EmptyString
  | String c r => String (lower c) (lowercase r)
  end.

Definition truthy_tokens : list string := ["true"; "1"; "t"; "True"].

(** The first character where a number may start: past leading white
    space and one sign. *)
Definition numeral_start (s : string) : string :=
  snd (JS.take_sign (JS.trimStart s)).

Definition starts_with_digit (s : string) : bool :=
  match s with
  | String c _ => bool_decide (is_Some (JS.digit c))
  | EmptyString => false
  end.

(** A decimal literal may also start with a point followed by a digit, or
    be the word Infinity. *)
Definition starts_decimal (s : string) : bool :=
  starts_with_digit s
  || match s with
     | String c r => Ascii.eqb c "." && starts_with_digit r
     | EmptyString => false
     end
  || bool_decide (is_Some (JS.strip_prefix "Infinity" s)).

Definition warn_int (value : string) : Entry :=
  mkEntry WARN ("⚠️  Failed to parse integer: " ++ value ++ ", defaulting to 0") None.

Definition warn_float (value : string) : Entry :=
  mkEntry WARN ("⚠️  Failed to parse float: " ++ value ++ ", defaulting to 0") None.

(** Several console entries at once. *)
Definition add_entries (xs : list Entry) (w : World) : World :=
  mkWorld (db w) (console w ++ xs) (calls w) (clock_reads w).

(** What the two numeric coercions return and print. *)
Definition int_or_0 (s : string) : JS.float :=
  match JS.parseInt s with
  | JS.FNaN => JS.FNum 0%Q
  | parsed => parsed
  end.

Definition int_warning (s : string) : list Entry :=
  match JS.parseInt s with
  | JS.FNaN => [warn_int s]
  | _ => []
  end.

Definition float_or_0 (s : string) : JS.float :=
  match JS.parseFloat s with
  | JS.FNaN => JS.FNum 0%Q
  | parsed => parsed
  end.

Definition float_warning (s : string) : list Entry :=
  match JS.parseFloat s with
  | JS.FNaN => [warn_float s]
  | _ => []
  end.

(** The warning of a numeric coercion. *)
Definition numeric_warning (x : Entry) : Prop :=
  ∃ s : string, x = warn_int s ∨ x = warn_float s.

(** A step that leaves the store and the calls alone: all it may do is
    print warnings of numeric coercions and read the clock. *)
Inductive quiet : World -> World -> Prop :=
  | quiet_refl (w : World) : quiet w w
  | quiet_warn (w w' : World) (xs : list Entry) :
      quiet w w' -> Forall numeric_warning xs ->
      quiet w (add_entries xs w')
  | quiet_tick (w w' : World) : quiet w w' -> quiet w (tick w').

(** The world after the upsert of a row has been tried with [args]. *)
Definition after_upsert (env : Env) (r : Row) (args : UpsertArgs) (w : World)
  : World :=
  match store_error env w (entity_of r) args with
  | None =>
      add_call (CUpsert (entity_of r) args true)
        (set_db (upsert_db (entity_of r) args (db w)) w)
  | Some error =>
      add_entry (error_report r error)
        (add_call (CUpsert (entity_of r) args false) w)
  end.

(** The warning [parseCSV] prints for a path, if any. *)
Definition read_warning (env : Env) (path : string) : list Entry :=
  match files env !! path with
  | None => [mkEntry WARN ("⚠️  CSV file not found: " ++ path) None]
  | Some (inl _) => []
  | Some (inr content) =>
      if header_only content
      then [mkEntry WARN ("⚠️  CSV file is empty: " ++ path) None]
      else []
  end.

Definition start_report (e : Entity) : Entry :=
  mkEntry LOG ("🌱 Seeding " ++ noun e ++ "s...") None.

Definition none_report (e : Entity) : Entry :=
  mkEntry LOG
    match e with
    | Favorite => "⚠️  No favorites to seed (file is empty)"
    | _ => "⚠️  No " ++ noun e ++ "s to seed"
    end None.


(** The upserts a run from [w] adds to the calls already made. *)
Definition issued (env : Env) (w : World) : list (Entity * string) :=
  drop (length (upsert_keys (calls w))) (upsert_keys (calls (snd (main env w)))).

(** Keys compared by the phase of their entity type. *)
Definition phase_le (k1 k2 : Entity * string) : Prop :=
  (Entity_code k1.1 ≤ Entity_code k2.1)%nat.

(** The two timestamps of a row as the file gives them. *)
Definition raw_createdAt (r : Row) : option string :=
  match r with
  | RProduct x => Some x.(ProductRow.createdAt)
  | RCart x => Some x.(CartRow.createdAt)
  | RCartItem x => Some x.(CartItemRow.createdAt)
  | RFavorite x => x.(FavoriteRow.createdAt)
  | ROrder x => Some x.(OrderRow.createdAt)
  | RReview x => Some x.(ReviewRow.createdAt)
  end.

Definition raw_updatedAt (r : Row) : option string :=
  match r with
  | RProduct x => Some x.(ProductRow.updatedAt)
  | RCart x => Some x.(CartRow.updatedAt)
  | RCartItem x => Some x.(CartItemRow.updatedAt)
  | RFavorite x => x.(FavoriteRow.updatedAt)
  | ROrder x => Some x.(OrderRow.updatedAt)
  | RReview x => Some x.(ReviewRow.updatedAt)
  end.

(** Only a favorite replaces a timestamp, and only a missing or empty
    one. *)
Definition defaults_to_now (r : Row) (raw : option string) : bool :=
  match r with
  | RFavorite _ => falsy raw
  | _ => false
  end.

(** What an object handed to the store holds for a timestamp of the row:
    a reading of the clock taken while the row was handled when the
    timestamp defaults, [new Date] of the raw string otherwise. *)
Definition stamped (env : Env) (r : Row) (w w1 : World)
    (field : string) (raw : option string) (payload : Fields) : Prop :=
  if defaults_to_now r raw then
    ∃ k, (clock_reads w ≤ k < clock_reads w1)%nat
         ∧ payload !! field = Some (VDate (Some (clock env k)))
  else payload !! field = Some (VDate (Date_parse env (show raw))).

(** A row whose upsert does not read the clock: every row but a favorite
    with a missing or empty timestamp. *)
Definition timestamped (r : Row) : bool :=
  match r with
  | RFavorite x =>
      negb (falsy x.(FavoriteRow.createdAt))
      && negb (falsy x.(FavoriteRow.updatedAt))
  | _ => true
  end.


(** The arguments built for a row in a world that has read no clock yet;
    for a timestamped row every world builds the same. *)
Definition args_at (env : Env) (r : Row) : UpsertArgs :=
  match args_of env r (mkWorld ∅ [] [] 0) with
  | (Ok args, _) => args
  | (Throw _, _) => mkUpsert "" ∅ ∅
  end.

Definition request (env : Env) (r : Row) : Entity * UpsertArgs :=
  (entity_of r, args_at env r).



(** The row an upsert leaves under its key. *)
Definition row_after (a : UpsertArgs) (o : option Fields) : Fields :=
  match o with
  | Some row => update a ∪ row
  | None => create a
  end.



(** The fields an update of each model sets. *)
Definition columns (e : Entity) : list string :=
  match e with
  | Product =>
      ["name"; "company"; "description"; "featured"; "image"; "price";
       "clerkId"; "createdAt"; "updatedAt"]
  | Cart =>
      ["clerkId"; "numItemsInCart"; "cartTotal"; "shipping"; "tax";
       "taxRate"; "orderTotal"; "createdAt"; "updatedAt"]
  | CartItem => ["productId"; "cartId"; "amount"; "createdAt"; "updatedAt"]
  | Favorite => ["clerkId"; "productId"; "createdAt"; "updatedAt"]
  | Order =>
      ["clerkId"; "products"; "orderTotal"; "tax"; "shipping"; "email";
       "isPaid"; "createdAt"; "updatedAt"]
  | Review =>
      ["clerkId"; "rating"; "comment"; "authorName"; "authorImageUrl";
       "productId"; "createdAt"; "updatedAt"]
  end.

(** An upsert whose [update] sets the columns of its model and whose
    [create] holds the same values, with the [id]. *)
Definition well_formed (q : Entity * UpsertArgs) : Prop :=
  dom (update q.2) = list_to_set (columns q.1)
  ∧ update q.2 ∪ create q.2 = create q.2.

(** The upserts the store refused, the messages printed with
    [console.error], and the message that reports a refused upsert. *)
Definition refused_keys (cs : list Call) : list (Entity * string) :=
  omap (fun c => match c with
                 | CUpsert e a false => Some (e, where_id a)
                 | _ => None
                 end) cs.

Definition error_texts (xs : list Entry) : list string :=
  omap (fun x => match level x with
                 | ERROR => Some (message x)
                 | _ => None
                 end) xs.

Definition report_text (k : Entity * string) : string :=
  "❌ Error seeding " ++ noun k.1 ++ " " ++ k.2 ++ ":".

(** *** Vocabulary of the further properties *)

Definition is_upsert (c : Call) : Prop :=
  match c with
  | CUpsert _ _ _ => True
  | CDisconnect => False
  end.

(** From [w] to [w'] the client received upserts only. *)
Definition only_upserts (w w' : World) : Prop :=
  ∃ cs, calls w' = (calls w ++ cs)%list ∧ Forall is_upsert cs.

(** No row of [d] is missing from [d']. *)
Definition keeps_rows (d d' : DB) : Prop :=
  ∀ k, is_Some (d !! k) → is_Some (d' !! k).

(** [d'] is [d] under every key outside [ks]. *)
Definition untouched_outside (ks : list (Entity * string)) (d d' : DB) : Prop :=
  ∀ k, k ∉ ks → d' !! k = d !! k.

(** The error of the first phase whose file cannot be read or is rejected
    by csv-parse. *)
Fixpoint first_error_from (env : Env) (es : list Entity) : option Exn :=
  match es with
  | [] => None
  | e :: rest =>
      match rows_of env e with
      | inl error => Some error
      | inr _ => first_error_from env rest
      end
  end.

Definition first_error (env : Env) : option Exn := first_error_from env phases.

Definition outcome (o : option Exn) : result unit :=
  match o with
  | Some error => Throw error
  | None => Ok tt
  end.

(** The warnings of the numeric coercions of one object literal of a row,
    in the order of its fields. *)
Definition coercion_warnings (r : Row) : list Entry :=
  match r with
  | RProduct x => int_warning x.(ProductRow.price)
  | RCart x =>
      int_warning x.(CartRow.numItemsInCart)
      ++ int_warning x.(CartRow.cartTotal)
      ++ int_warning x.(CartRow.shipping)
      ++ int_warning x.(CartRow.tax)
      ++ float_warning x.(CartRow.taxRate)
      ++ int_warning x.(CartRow.orderTotal)
  | RCartItem x => int_warning x.(CartItemRow.amount)
  | RFavorite _ => []
  | ROrder x =>
      int_warning x.(OrderRow.products)
      ++ int_warning x.(OrderRow.orderTotal)
      ++ int_warning x.(OrderRow.tax)
      ++ int_warning x.(OrderRow.shipping)
  | RReview x => int_warning x.(ReviewRow.rating)
  end%list.

(** How many of the two timestamps of a row default to the current
    time. *)
Definition defaulted (r : Row) : nat :=
  ((if defaults_to_now r (raw_createdAt r) then 1 else 0)
   + (if defaults_to_now r (raw_updatedAt r) then 1 else 0))%nat.

(** The digits of a decimal numeral, most significant first. *)
Fixpoint uint_digits (d : Decimal.uint) : list Z :=
  match d with
  | Decimal.Nil => []
  | Decimal.D0 d => 0 :: uint_digits d
  | Decimal.D1 d => 1 :: uint_digits d
  | Decimal.D2 d => 2 :: uint_digits d
  | Decimal.D3 d => 3 :: uint_digits d
  | Decimal.D4 d => 4 :: uint_digits d
  | Decimal.D5 d => 5 :: uint_digits d
  | Decimal.D6 d => 6 :: uint_digits d
  | Decimal.D7 d => 7 :: uint_digits d
  | Decimal.D8 d => 8 :: uint_digits d
  | Decimal.D9 d => 9 :: uint_digits d
  end.

(** *** Vocabulary of re-running on a store that may refuse *)




(** ** Properties *)

(** *** Field coercion *)

Lemma parseBoolean_true_iff (s : string) :
  parseBoolean s = true ↔ s ∈ truthy_tokens.
Proof.
  unfold parseBoolean, truthy_tokens.
  rewrite !orb_true_iff, !String.eqb_eq, !elem_of_cons, elem_of_nil.
  tauto.
Qed.

(** C5, as amended: [parseBoolean] answers [true] exactly on the four
    tokens ["true"], ["1"], ["t"], ["True"], compared character for
    character.  Every other string gives [false]: the empty string, and
    also a token in another case, such as ["TRUE"] or ["T"]. *)
Theorem parseBoolean_exact_tokens (s : string) :
  (parseBoolean s = true ↔ s ∈ truthy_tokens)
  ∧ (parseBoolean s = false ↔ s ∉ truthy_tokens)
  ∧ parseBoolean "" = false
  ∧ parseBoolean "TRUE" = false
  ∧ parseBoolean "T" = false.
Proof.
  split; [apply parseBoolean_true_iff |].
  split; [| by repeat split].
  rewrite <- parseBoolean_true_iff.
  destruct (parseBoolean s); split; (congruence || tauto).
Qed.

(** C5, as stated, fails: ["TRUE"] matches the token ["true"] when case is
    ignored, and [parseBoolean] answers [false] on it. *)
Lemma parseBoolean_not_case_insensitive :
  ¬ (parseBoolean "TRUE" = true
     ↔ ∃ t, t ∈ truthy_tokens ∧ ("TRUE" = t ∨ lowercase "TRUE" = lowercase t)).
Proof.
  intros [_ H].
  assert (parseBoolean "TRUE" = true) as E; [| discriminate E].
  apply H. exists "true". split; [| right; reflexivity].
  unfold truthy_tokens. apply elem_of_cons. by left.
Qed.

Lemma mathInt_None_iff (s : string) :
  JS.mathInt s = None ↔ starts_with_digit (numeral_start s) = false.
Proof.
  unfold JS.mathInt, numeral_start.
  destruct (JS.take_sign (JS.trimStart s)) as [neg body]; simpl.
  destruct body as [| c r]; simpl; [done |].
  destruct (JS.digit c) as [d |]; simpl.
  - destruct (JS.span_digits r). split; discriminate.
  - done.
Qed.

(** The Number of an integer is an integer or an infinity, never NaN. *)
Lemma binary64_of_Z_cases (z : Z) :
  (∃ z', JS.binary64_of_Z z = JS.FNum (inject_Z z'))
  ∨ (∃ neg, JS.binary64_of_Z z = JS.FInfinity neg).
Proof.
  unfold JS.binary64_of_Z. cbv zeta.
  destruct (Z.log2 (Z.abs z) - 52 <=? 0); [left; by eexists |].
  destruct (2 ^ 1024 <=? _); [right | left]; by eexists.
Qed.

(** Up to [2^53] in absolute value every integer is its own Number. *)
Lemma binary64_of_Z_exact (z : Z) :
  Z.abs z ≤ 2 ^ 53 → JS.binary64_of_Z z = JS.FNum (inject_Z z).
Proof.
  intros Hz. unfold JS.binary64_of_Z. cbv zeta.
  destruct (Z.log2 (Z.abs z) - 52 <=? 0) eqn:E; [done |].
  apply Z.leb_gt in E.
  assert (0 < Z.abs z) as Hpos.
  { destruct (Z.abs z) eqn:Ea; [simpl in E |..]; lia. }
  pose proof (Z.log2_spec _ Hpos) as [Hlow _].
  assert (2 ^ 53 ≤ 2 ^ Z.log2 (Z.abs z)) as Hpow
    by (apply Z.pow_le_mono_r; lia).
  change (2 ^ 53) with 9007199254740992 in *.
  assert (z = 9007199254740992 ∨ z = - 9007199254740992) as [-> | ->] by lia;
    by vm_compute.
Qed.

Lemma parseInt_NaN_iff (s : string) :
  JS.parseInt s = JS.FNaN ↔ starts_with_digit (numeral_start s) = false.
Proof.
  rewrite <- mathInt_None_iff. unfold JS.parseInt.
  destruct (JS.mathInt s) as [z |]; [| done].
  split; [| done]. intros E.
  destruct (binary64_of_Z_cases z) as [[z' H] | [neg H]]; congruence.
Qed.

Lemma parseIntValue_number (s : string) (w : World) :
  JS.parseInt s ≠ JS.FNaN → parseIntValue s w = (Ok (JS.parseInt s), w).
Proof. intros E. unfold parseIntValue. by destruct (JS.parseInt s). Qed.

Lemma parseIntValue_NaN (s : string) (w : World) :
  JS.parseInt s = JS.FNaN →
  parseIntValue s w = (Ok (JS.FNum 0), add_entry (warn_int s) w).
Proof. intros E. unfold parseIntValue. by rewrite E. Qed.




Lemma binary64_of_Q_not_NaN (x : Q) : JS.binary64_of_Q x ≠ JS.FNaN.
Proof.
  unfold JS.binary64_of_Q. cbv zeta.
  destruct (Z.abs (Qnum x) =? 0); [discriminate |].
  destruct (_ && _); discriminate.
Qed.

Ltac number_not_NaN :=
  split; [intros E; by apply binary64_of_Q_not_NaN in E | discriminate].

Lemma parseFloat_NaN_iff (s : string) :
  JS.parseFloat s = JS.FNaN ↔ starts_decimal (numeral_start s) = false.
Proof.
  unfold JS.parseFloat, numeral_start, starts_decimal.
  destruct (JS.take_sign (JS.trimStart s)) as [neg body]; cbn [snd].
  destruct (JS.strip_prefix "Infinity" body) as [rest |] eqn:EI.
  { rewrite bool_decide_eq_true_2 by eauto.
    rewrite orb_true_r. split; discriminate. }
  rewrite bool_decide_eq_false_2 by (by intros [? ?]).
  rewrite orb_false_r. clear EI.
  destruct body as [| c r]; [done |].
  cbn [JS.span_digits starts_with_digit].
  destruct (JS.digit c) as [d |] eqn:Ed.
  - destruct (JS.span_digits r) as [ds r1].
    destruct r1 as [| c1 r1']; [number_not_NaN |].
    destruct (Ascii.eqb c1 "."); [| number_not_NaN].
    destruct (JS.span_digits r1'). number_not_NaN.
  - cbn [orb bool_decide decide_rel]. rewrite bool_decide_eq_false_2
      by (by intros [? ?]). cbn [orb].
    destruct (Ascii.eqb c "."); [| done].
    destruct r as [| c2 r2]; [done |].
    cbn [JS.span_digits starts_with_digit andb].
    destruct (JS.digit c2) as [d2 |] eqn:Ed2.
    + destruct (JS.span_digits r2). rewrite bool_decide_eq_true_2 by eauto.
      number_not_NaN.
    + by rewrite bool_decide_eq_false_2 by (by intros [? ?]).
Qed.

Lemma add_entry_neq (x : Entry) (w : World) : add_entry x w ≠ w.
Proof.
  intros E. apply (f_equal (fun v => length (console v))) in E.
  simpl in E. rewrite length_app in E. simpl in E. lia.
Qed.

(** C10: a numeric prefix is enough.  [parseIntValue "12abc"] is 12 and
    [parseFloatValue "1.5xyz"] is 1.5, both without a warning; the
    fallback to 0 with its warning is taken exactly when, past leading
    white space and a sign, no number starts at all. *)
Theorem numeric_prefix_accepted (w : World) :
  parseIntValue "12abc" w = (Ok (JS.FNum 12), w)
  ∧ parseFloatValue "1.5xyz" w = (Ok (JS.FNum (3 # 2)), w)
  ∧ (∀ s : string,
       parseIntValue s w = (Ok (JS.FNum 0), add_entry (warn_int s) w)
       ↔ starts_with_digit (numeral_start s) = false)
  ∧ (∀ s : string,
       parseFloatValue s w = (Ok (JS.FNum 0), add_entry (warn_float s) w)
       ↔ starts_decimal (numeral_start s) = false).
Proof.
  split; [reflexivity |]. split; [reflexivity |]. split; intros s.
  - rewrite <- parseInt_NaN_iff. split.
    + intros H. destruct (JS.parseInt s) eqn:E; [done | |];
        rewrite parseIntValue_number in H by (rewrite E; discriminate);
        inversion H as [[Hz Hw]]; symmetry in Hw; by apply add_entry_neq in Hw.
    + apply parseIntValue_NaN.
  - rewrite <- parseFloat_NaN_iff. unfold parseFloatValue. split.
    + intros H. destruct (JS.parseFloat s) eqn:E; [done | discriminate H |].
      inversion H as [[Hq Hw]]. symmetry in Hw. by apply add_entry_neq in Hw.
    + intros E. by rewrite E.
Qed.

(** *** The monad and the console *)

Lemma add_entries_nil (w : World) : add_entries [] w = w.
Proof. destruct w. unfold add_entries. simpl. by rewrite app_nil_r. Qed.

Lemma parseIntValue_eq (s : string) (w : World) :
  parseIntValue s w = (Ok (int_or_0 s), add_entries (int_warning s) w).
Proof.
  unfold parseIntValue, int_or_0, int_warning.
  destruct (JS.parseInt s); simpl; by rewrite ?add_entries_nil.
Qed.

Lemma parseFloatValue_eq (s : string) (w : World) :
  parseFloatValue s w = (Ok (float_or_0 s), add_entries (float_warning s) w).
Proof.
  unfold parseFloatValue, float_or_0, float_warning.
  destruct (JS.parseFloat s); simpl; by rewrite ?add_entries_nil.
Qed.

Lemma int_warning_warns (s : string) : Forall numeric_warning (int_warning s).
Proof.
  unfold int_warning. destruct (JS.parseInt s); repeat constructor.
  exists s. by left.
Qed.

Lemma float_warning_warns (s : string) :
  Forall numeric_warning (float_warning s).
Proof.
  unfold float_warning. destruct (JS.parseFloat s); repeat constructor.
  exists s. by right.
Qed.

Lemma quiet_db (w w' : World) : quiet w w' → db w' = db w.
Proof. induction 1; done. Qed.

Lemma quiet_calls (w w' : World) : quiet w w' → calls w' = calls w.
Proof. induction 1; done. Qed.

Lemma quiet_console (w w' : World) :
  quiet w w' →
  ∃ xs, console w' = (console w ++ xs)%list ∧ Forall numeric_warning xs.
Proof.
  induction 1 as [w | w w' xs _ [ys [E F]] Hxs | w w' _ IH].
  - exists []. by rewrite app_nil_r.
  - exists (ys ++ xs)%list. simpl. rewrite E, app_assoc. split; [done |].
    by apply Forall_app.
  - done.
Qed.

Lemma for_of_app {A} (xs ys : list A) (body : A → M unit) (w : World) :
  for_of (xs ++ ys) body w
  = match for_of xs body w with
    | (Ok _, w') => for_of ys body w'
    | (Throw e, w') => (Throw e, w')
    end.
Proof.
  revert w. induction xs as [| x xs IH]; intros w; simpl; [done |].
  unfold mbind, M_bind. destruct (body x w) as [[[] | e] w1]; [apply IH | done].
Qed.

Lemma for_of_fmap {A B} (f : A → B) (xs : list A) (body : B → M unit) :
  for_of (f <$> xs) body = for_of xs (fun x => body (f x)).
Proof. induction xs as [| x xs IH]; [done | simpl; by rewrite <- IH]. Qed.

(** *** One row *)

Lemma date_or_now_eq (env : Env) (o : option string) (w : World) :
  date_or_now env o w
  = (Ok (if falsy o then Some (clock env (clock_reads w))
         else new_Date env (show o)),
     if falsy o then tick w else w).
Proof. unfold date_or_now. by destruct (falsy o). Qed.

Ltac run_args :=
  unfold mbind, M_bind;
  repeat (first [ rewrite parseIntValue_eq
                | rewrite parseFloatValue_eq
                | rewrite date_or_now_eq ];
          cbv beta iota).

Ltac solve_quiet :=
  repeat first
    [ apply quiet_refl
    | apply quiet_warn; [| first [ apply int_warning_warns
                                 | apply float_warning_warns ] ]
    | apply quiet_tick
    | match goal with |- context [if ?b then _ else _] => destruct b end ].

(** Building the arguments of an upsert never throws and is quiet. *)
Lemma args_of_quiet (env : Env) (r : Row) (w : World) :
  ∃ args w1,
    args_of env r w = (Ok args, w1) ∧ quiet w w1 ∧ where_id args = id_of r.
Proof.
  destruct r as [x | x | x | x | x | x]; simpl;
    [ unfold product_args | unfold cart_args | unfold cartItem_args
    | unfold favorite_args | unfold order_args | unfold review_args ];
    run_args; eexists _, _; (split; [reflexivity |]); (split; [| reflexivity]);
    solve_quiet.
Qed.

Lemma seed_row_skipped (env : Env) (r : Row) (w : World) :
  skipped r = true → seed_row env r w = (Ok tt, w).
Proof.
  destruct r; simpl; try discriminate.
  intros E. unfold seedFavorites_row. by rewrite E.
Qed.

Lemma seed_row_run (env : Env) (r : Row) (w : World) args w1 :
  skipped r = false →
  args_of env r w = (Ok args, w1) →
  seed_row env r w = (Ok tt, after_upsert env r args w1).
Proof.
  intros Hs Ha.
  destruct r; simpl in *;
    [ unfold seedProducts_row | unfold seedCarts_row | unfold seedCartItems_row
    | unfold seedFavorites_row; rewrite Hs | unfold seedOrders_row
    | unfold seedReviews_row ];
    unfold try_catch, mbind, M_bind; rewrite Ha;
    unfold prisma_upsert, after_upsert; simpl;
    by destruct (store_error env w1 _ args).
Qed.

(** A row never throws, whatever the store answers. *)
Lemma seed_row_total (env : Env) (r : Row) (w : World) :
  ∃ w', seed_row env r w = (Ok tt, w').
Proof.
  destruct (skipped r) eqn:Hs.
  - exists w. by apply seed_row_skipped.
  - destruct (args_of_quiet env r w) as (args & w1 & Ha & _ & _).
    eexists. by apply seed_row_run.
Qed.

Lemma upsert_keys_app (xs ys : list Call) :
  upsert_keys (xs ++ ys) = (upsert_keys xs ++ upsert_keys ys)%list.
Proof. apply omap_app. Qed.

Lemma after_upsert_keys (env : Env) (r : Row) args (w : World) :
  where_id args = id_of r →
  upsert_keys (calls (after_upsert env r args w))
  = (upsert_keys (calls w) ++ [key_of r])%list.
Proof.
  intros E. unfold after_upsert, key_of.
  destruct (store_error env w (entity_of r) args); simpl;
    rewrite upsert_keys_app; simpl; by rewrite E.
Qed.

(** *** One entity type *)

(** The loop tries the upsert of every row that is not skipped, in order,
    and ends normally. *)
Lemma loop_keys (env : Env) (rows : list Row) (w : World) :
  ∃ w', for_of rows (seed_row env) w = (Ok tt, w')
        ∧ upsert_keys (calls w')
          = (upsert_keys (calls w) ++ (key_of <$> attempted rows))%list.
Proof.
  revert w. induction rows as [| r rows IH]; intros w.
  - exists w. split; [done |]. by rewrite app_nil_r.
  - simpl. unfold mbind, M_bind, attempted.
    destruct (skipped r) eqn:Hs.
    + rewrite (seed_row_skipped _ _ _ Hs).
      rewrite filter_cons_False by (rewrite Hs; discriminate). apply IH.
    + destruct (args_of_quiet env r w) as (args & w1 & Ha & Hq & Hid).
      rewrite (seed_row_run _ _ _ _ _ Hs Ha).
      rewrite filter_cons_True by done.
      destruct (IH (after_upsert env r args w1)) as (w' & Hrun & Hkeys).
      exists w'. split; [done |].
      rewrite Hkeys, (after_upsert_keys _ _ _ _ Hid), (quiet_calls _ _ Hq).
      by rewrite <- app_assoc.
Qed.

Lemma quiet_errors (w w' : World) :
  quiet w w' → error_texts (console w') = error_texts (console w).
Proof.
  intros Hq. destruct (quiet_console _ _ Hq) as (xs & -> & Hxs).
  unfold error_texts. rewrite omap_app.
  assert (omap (fun x => match level x with
                         | ERROR => Some (message x)
                         | _ => None
                         end) xs = []) as ->; [| by rewrite app_nil_r].
  induction Hxs as [| x xs [s [-> | ->]] _ IH]; simpl; done.
Qed.

Lemma after_upsert_reports (env : Env) (r : Row) args (w : World) :
  where_id args = id_of r →
  ∃ ks, refused_keys (calls (after_upsert env r args w))
        = (refused_keys (calls w) ++ ks)%list
        ∧ error_texts (console (after_upsert env r args w))
          = (error_texts (console w) ++ (report_text <$> ks))%list.
Proof.
  intros E. unfold after_upsert, refused_keys, error_texts.
  destruct (store_error env w (entity_of r) args); simpl.
  - exists [key_of r]. rewrite !omap_app. simpl. by rewrite E.
  - exists []. rewrite omap_app. simpl. by rewrite !app_nil_r.
Qed.

(** In the loop, the messages of [console.error] are the reports of the
    refused upserts, one for one and in order. *)
Lemma loop_reports (env : Env) (rows : list Row) (w w' : World) :
  for_of rows (seed_row env) w = (Ok tt, w') →
  ∃ ks, refused_keys (calls w') = (refused_keys (calls w) ++ ks)%list
        ∧ error_texts (console w')
          = (error_texts (console w) ++ (report_text <$> ks))%list.
Proof.
  revert w. induction rows as [| r rows IH]; intros w.
  - intros [= <-]. exists []. by rewrite !app_nil_r.
  - simpl. unfold mbind, M_bind.
    destruct (skipped r) eqn:Hs.
    + rewrite (seed_row_skipped _ _ _ Hs). apply IH.
    + destruct (args_of_quiet env r w) as (args & w1 & Ha & Hq & Hid).
      rewrite (seed_row_run _ _ _ _ _ Hs Ha). intros Hrun.
      destruct (IH _ Hrun) as (ks2 & Hk2 & He2).
      destruct (after_upsert_reports env r args w1 Hid) as (ks1 & Hk1 & He1).
      exists (ks1 ++ ks2)%list.
      rewrite Hk2, He2, Hk1, He1, (quiet_calls _ _ Hq), (quiet_errors _ _ Hq).
      by rewrite fmap_app, !app_assoc.
Qed.

Lemma split_on_length (sep : ascii) (s : string) :
  (1 ≤ length (JS.split_on sep s))%nat
  ∧ ((length (JS.split_on sep s) <=? 1)%nat = negb (contains sep s)).
Proof.
  induction s as [| c r [IH1 IH2]]; simpl; [done |].
  destruct (Ascii.eqb c sep); simpl.
  - split; [lia |]. apply Nat.leb_gt. lia.
  - destruct (JS.split_on sep r) as [| p ps]; simpl in *; [lia | done].
Qed.

Lemma header_only_eq (content : string) :
  negb (JS.truthy (JS.trim content))
  || (length (JS.split_on JS.LF (JS.trim content)) <=? 1)%nat
  = header_only content.
Proof.
  unfold header_only.
  rewrite (proj2 (split_on_length JS.LF (JS.trim content))).
  destruct (JS.trim content); [done | simpl]. done.
Qed.

Lemma parseCSV_eq (env : Env) {T} `{RowOf T} (path : string) (w : World) :
  parseCSV env path w
  = (match read_records env path with
     | inl error => Throw error
     | inr records => Ok (of_record <$> records)
     end,
     add_entries (read_warning env path) w).
Proof.
  unfold parseCSV, read_records, read_warning.
  destruct (files env !! path) as [[error | content] |]; [| | done].
  { by rewrite add_entries_nil. }
  rewrite header_only_eq. destruct (header_only content); [done |].
  rewrite add_entries_nil. by destruct (csv_parse env content).
Qed.

(** The world when the loop of a phase starts. *)
Lemma seed_eq (env : Env) (e : Entity) (w : World) :
  seed env e w
  = let w0 := add_entries (read_warning env (path_join CSV_DIR (csv_file e)))
                (add_entry (start_report e) w) in
    match rows_of env e with
    | inl error => (Throw error, w0)
    | inr [] => (Ok tt, add_entry (none_report e) w0)
    | inr rows =>
        match for_of rows (seed_row env) w0 with
        | (Ok _, w') => (Ok tt, add_entry (count_report e (length rows)) w')
        | (Throw error, w') => (Throw error, w')
        end
    end.
Proof.
  destruct e; simpl;
    [ unfold seedProducts | unfold seedCarts | unfold seedCartItems
    | unfold seedFavorites | unfold seedOrders | unfold seedReviews ];
    unfold rows_of, mbind, M_bind; simpl; rewrite parseCSV_eq;
    (destruct (read_records env _) as [error | records]; [done |]);
    (destruct records as [| r records]; [done |]);
    rewrite length_fmap; simpl length; cbv beta iota;
    rewrite !for_of_fmap, !length_fmap; simpl; unfold mbind, M_bind;
    reflexivity.
Qed.

(** *** The whole run *)

(** The phases in sequence try exactly the planned upserts. *)
Lemma phases_keys (env : Env) (es : list Entity) (w : World) :
  ∃ r w', for_of es (seed env) w = (r, w')
          ∧ upsert_keys (calls w')
            = (upsert_keys (calls w) ++ planned_from env es)%list.
Proof.
  revert w. induction es as [| e es IH]; intros w.
  - exists (Ok tt), w. split; [done |]. by rewrite app_nil_r.
  - simpl. unfold mbind, M_bind. rewrite seed_eq. cbv zeta.
    destruct (rows_of env e) as [error | rows].
    + eexists _, _. split; [done |]. by rewrite app_nil_r.
    + set (w0 := add_entries _ (add_entry (start_report e) w)).
      assert (upsert_keys (calls w0) = upsert_keys (calls w)) as E0 by done.
      destruct rows as [| r rows].
      * destruct (IH (add_entry (none_report e) w0)) as (res & w' & Hrun & Hk).
        exists res, w'. split; [done |]. by rewrite Hk.
      * destruct (loop_keys env (r :: rows) w0) as (w1 & Hloop & Hk1).
        rewrite Hloop.
        destruct (IH (add_entry (count_report e (length (r :: rows))) w1))
          as (res & w' & Hrun & Hk).
        exists res, w'. split; [done |].
        rewrite Hk. simpl calls. rewrite Hk1, E0. by rewrite <- app_assoc.
Qed.

Lemma main_eq (env : Env) (w : World) :
  main env w
  = match for_of phases (seed env)
            (add_entry (mkEntry LOG ("📂 CSV Directory: " ++ CSV_DIR ++ NL) None)
               (add_entry (mkEntry LOG ("🚀 Starting database seed..." ++ NL) None) w))
    with
    | (Ok _, w1) =>
        (Ok tt,
         add_call CDisconnect
           (add_entry (mkEntry LOG (NL ++ "✨ Database seeded successfully!") None) w1))
    | (Throw error, w1) =>
        (Throw error,
         add_call CDisconnect
           (add_entry (mkEntry ERROR "❌ Error seeding database:" (Some error)) w1))
    end.
Proof.
  unfold main, phases. cbn [for_of seed].
  unfold finally, try_catch, mbind, M_bind, console_log at 1 2.
  set (w0 := add_entry _ (add_entry _ w)).
  destruct (seedProducts env w0) as [[[] | ?] w1]; [| done].
  destruct (seedCarts env w1) as [[[] | ?] w2]; [| done].
  destruct (seedCartItems env w2) as [[[] | ?] w3]; [| done].
  destruct (seedFavorites env w3) as [[[] | ?] w4]; [| done].
  destruct (seedOrders env w4) as [[[] | ?] w5]; [| done].
  destruct (seedReviews env w5) as [[[] | ?] w6]; done.
Qed.

Lemma main_keys (env : Env) (w : World) :
  upsert_keys (calls (snd (main env w)))
  = (upsert_keys (calls w) ++ planned env)%list.
Proof.
  rewrite main_eq.
  set (w0 := add_entry _ (add_entry _ w)).
  destruct (phases_keys env phases w0) as (r & w1 & Hrun & Hk).
  rewrite Hrun.
  destruct r; simpl; rewrite upsert_keys_app, Hk; simpl; by rewrite app_nil_r.
Qed.

Lemma issued_planned (env : Env) (w : World) : issued env w = planned env.
Proof. unfold issued. rewrite main_keys. by rewrite drop_app_length. Qed.

Lemma entity_of_as_row (e : Entity) (r : CsvRecord) : entity_of (as_row e r) = e.
Proof. by destruct e. Qed.

Lemma rows_of_entity (env : Env) (e : Entity) (rows : list Row) :
  rows_of env e = inr rows → Forall (fun r => entity_of r = e) rows.
Proof.
  unfold rows_of. destruct (read_records env _) as [| records]; [done |].
  intros [= <-]. apply Forall_fmap, Forall_forall. intros r _.
  apply entity_of_as_row.
Qed.

Lemma planned_from_entities (env : Env) (es : list Entity) :
  Forall (fun k => k.1 ∈ es) (planned_from env es).
Proof.
  induction es as [| e es IH]; simpl; [constructor |].
  destruct (rows_of env e) as [| rows] eqn:E; [constructor |].
  apply Forall_app. split.
  - apply Forall_fmap, Forall_forall. intros r Hr. simpl.
    apply list_elem_of_filter in Hr as [_ Hr].
    pose proof (rows_of_entity _ _ _ E) as F.
    rewrite Forall_forall in F. rewrite (F r Hr). by left.
  - eapply Forall_impl; [exact IH |]. intros k Hk. by right.
Qed.

Lemma planned_from_sorted (env : Env) (es : list Entity) :
  StronglySorted (fun a b => (Entity_code a ≤ Entity_code b)%nat) es →
  StronglySorted phase_le (planned_from env es).
Proof.
  induction 1 as [| e es Hs IH He]; simpl; [constructor |].
  destruct (rows_of env e) as [| rows] eqn:E; [constructor |].
  pose proof (rows_of_entity _ _ _ E) as F. rewrite Forall_forall in F.
  assert (∀ k, k ∈ key_of <$> attempted rows → k.1 = e) as Hfirst.
  { intros k Hk. apply list_elem_of_fmap in Hk as (r & -> & Hr).
    apply list_elem_of_filter in Hr as [_ Hr]. simpl. by apply F. }
  apply StronglySorted_app_2; [| | exact IH].
  - intros k1 k2 H1 H2. unfold phase_le. rewrite (Hfirst _ H1).
    pose proof (planned_from_entities env es) as G.
    rewrite Forall_forall in G. rewrite Forall_forall in He.
    by apply He, G.
  - induction (key_of <$> attempted rows) as [| k ks IHks]; constructor.
    + apply IHks. intros k' Hk'. apply Hfirst. by right.
    + apply Forall_forall. intros k' Hk'. unfold phase_le.
      rewrite (Hfirst k) by (by left). by rewrite (Hfirst k') by (by right).
Qed.

Lemma phases_sorted :
  StronglySorted (fun a b => (Entity_code a ≤ Entity_code b)%nat) phases.
Proof. unfold phases. repeat constructor; simpl; lia. Qed.

Lemma StronglySorted_lookup {A} (R : relation A) (l : list A) (i j : nat) x y :
  StronglySorted R l → l !! i = Some x → l !! j = Some y → (i < j)%nat → R x y.
Proof.
  intros Hs. revert i j. induction Hs as [| a l Hs IH Ha]; intros i j Hi Hj Hij.
  - done.
  - destruct j as [| j]; [lia |]. destruct i as [| i]; simpl in *.
    + injection Hi as ->. rewrite Forall_forall in Ha.
      apply Ha. by eapply list_elem_of_lookup_2.
    + eapply IH; [exact Hi | exact Hj | lia].
Qed.

Lemma references_phase (e target : Entity) :
  references e target = true → (Entity_code target < Entity_code e)%nat.
Proof. destruct e, target; simpl; (discriminate || lia). Qed.

(** *** The claims about rows, phases and the run *)

(** C2: a refused upsert aborts nothing.  The error is caught and
    reported with the row's key; the loop ends normally, having tried the
    upsert of every row that is not skipped and reported every refusal;
    and the upserts a whole run tries, over all entity types, are the
    planned ones whatever the store answers to any of them. *)
Theorem upsert_failure_isolated (env : Env) :
  (∀ r w, skipped r = false →
     ∃ args w1,
       args_of env r w = (Ok args, w1) ∧ quiet w w1
       ∧ where_id args = id_of r
       ∧ ∀ error, store_error env w1 (entity_of r) args = Some error →
           seed_row env r w
           = (Ok tt,
              add_entry (error_report r error)
                (add_call (CUpsert (entity_of r) args false) w1)))
  ∧ (∀ rows w,
       ∃ w' refused,
         for_of rows (seed_row env) w = (Ok tt, w')
         ∧ upsert_keys (calls w')
           = (upsert_keys (calls w) ++ (key_of <$> attempted rows))%list
         ∧ refused_keys (calls w') = (refused_keys (calls w) ++ refused)%list
         ∧ error_texts (console w')
           = (error_texts (console w) ++ (report_text <$> refused))%list)
  ∧ (∀ w, issued env w = planned env)
  ∧ (∀ verdict w w',
       issued (mkEnv (files env) (csv_parse env) (Date_parse env) (clock env)
                 verdict) w'
       = issued env w).
Proof.
  split.
  { intros r w Hs.
    destruct (args_of_quiet env r w) as (args & w1 & Ha & Hq & Hid).
    exists args, w1. do 3 (split; [done |]). intros error He.
    rewrite (seed_row_run _ _ _ _ _ Hs Ha). unfold after_upsert.
    by rewrite He. }
  split.
  { intros rows w. destruct (loop_keys env rows w) as (w' & Hrun & Hkeys).
    destruct (loop_reports env rows w w' Hrun) as (ks & Hk & He).
    by exists w', ks. }
  split; [apply issued_planned |].
  intros verdict w w'. by rewrite !issued_planned.
Qed.

Lemma upsert_failure_isolated_witness :
  omap (fun c => match c with
                 | CUpsert e a ok => Some (e, where_id a, ok)
                 | CDisconnect => None
                 end) (calls (snd (main Sample.shop Ref.empty_world)))
  = [ (Product, "P1", true); (Product, "P2", true); (Cart, "c1", true);
      (CartItem, "i1", false); (CartItem, "i2", true);
      (Favorite, "f1", true); (Review, "r1", true) ]
  ∧ issued Sample.shop Ref.empty_world
    = [ (Product, "P1"); (Product, "P2"); (Cart, "c1"); (CartItem, "i1");
        (CartItem, "i2"); (Favorite, "f1"); (Review, "r1") ].
Proof.
  split; [by vm_compute |].
  rewrite (proj1 (proj2 (proj2 (upsert_failure_isolated Sample.shop)))).
  by vm_compute.
Defined.

(** C3: in every run, an upsert of an entity type that carries a foreign
    key comes after every upsert of the entity type it references: the
    order Products, Carts, CartItems, Favorites, Orders, Reviews respects
    the foreign keys. *)
Theorem dependency_order (env : Env) (w : World) (i j : nat)
    (k1 k2 : Entity * string) :
  issued env w !! i = Some k1 →
  issued env w !! j = Some k2 →
  references k1.1 k2.1 = true →
  (j < i)%nat.
Proof.
  rewrite issued_planned. intros Hi Hj Href.
  apply references_phase in Href.
  pose proof (planned_from_sorted env phases phases_sorted) as Hs.
  destruct (decide (j < i)%nat) as [| Hge]; [done | exfalso].
  destruct (decide (i = j)) as [-> | Hne].
  - rewrite Hi in Hj. injection Hj as ->. lia.
  - assert (i < j)%nat as Hlt by lia.
    pose proof (StronglySorted_lookup _ _ _ _ _ _ Hs Hi Hj Hlt) as Hle.
    unfold phase_le in Hle. lia.
Qed.

Lemma dependency_order_witness :
  issued Sample.shop Ref.empty_world !! 4%nat = Some (CartItem, "i2")
  ∧ issued Sample.shop Ref.empty_world !! 0%nat = Some (Product, "P1")
  ∧ (0 < 4)%nat.
Proof.
  assert (issued Sample.shop Ref.empty_world !! 4%nat = Some (CartItem, "i2"))
    as Hi by (by vm_compute).
  assert (issued Sample.shop Ref.empty_world !! 0%nat = Some (Product, "P1"))
    as Hj by (by vm_compute).
  split; [exact Hi |]. split; [exact Hj |].
  exact (dependency_order Sample.shop Ref.empty_world 4 0 _ _ Hi Hj eq_refl).
Defined.

Lemma blank_falsy (o : option string) : blank o ↔ falsy o = true.
Proof.
  unfold blank. destruct o as [[| c s] |]; simpl; split; try done.
  - by right.
  - intros [| ]; done.
  - by left.
Qed.

(** C4: a favorite row in which [id], [clerkId] or [productId] is missing
    or empty is passed over: no upsert is issued, nothing is printed, the
    world (the stored state with it) is as before, and the loop goes on
    with the next row. *)
Theorem favorite_without_identifier_skipped (env : Env)
    (favorite : FavoriteRow.t) (before rest : list FavoriteRow.t) (w : World) :
  blank favorite.(FavoriteRow.id) ∨ blank favorite.(FavoriteRow.clerkId)
  ∨ blank favorite.(FavoriteRow.productId) →
  seedFavorites_row env favorite w = (Ok tt, w)
  ∧ for_of (before ++ favorite :: rest) (seedFavorites_row env) w
    = for_of (before ++ rest) (seedFavorites_row env) w.
Proof.
  intros H.
  assert (∀ v, seedFavorites_row env favorite v = (Ok tt, v)) as Hskip.
  { intros v. apply (seed_row_skipped env (RFavorite favorite)). simpl.
    rewrite !orb_true_iff, <- !blank_falsy. tauto. }
  split; [apply Hskip |].
  rewrite !for_of_app.
  destruct (for_of before (seedFavorites_row env) w) as [[[] | e] w1]; [| done].
  simpl. unfold mbind, M_bind. by rewrite Hskip.
Qed.

Lemma favorite_without_identifier_skipped_witness :
  seedFavorites_row Sample.shop Sample.anonymous_favorite Ref.empty_world
  = (Ok tt, Ref.empty_world).
Proof.
  apply (favorite_without_identifier_skipped Sample.shop
           Sample.anonymous_favorite [] [] Ref.empty_world).
  right. left. by left.
Defined.

(** C7, as amended: [parseCSV] degrades for an absent path and for
    content without a data line: each time it prints one warning and
    returns no row.  For any other content it returns what csv-parse
    returns, and an exception of csv-parse is not caught: it reaches the
    caller. *)
Theorem parseCSV_degrades (env : Env) {T} `{RowOf T} (path : string)
    (w : World) :
  (files env !! path = None →
   parseCSV env path w
   = (Ok [], add_entry (mkEntry WARN ("⚠️  CSV file not found: " ++ path) None) w))
  ∧ (∀ content,
       files env !! path = Some (inr content) → header_only content = true →
       parseCSV env path w
       = (Ok [], add_entry (mkEntry WARN ("⚠️  CSV file is empty: " ++ path) None) w))
  ∧ (∀ content,
       files env !! path = Some (inr content) → header_only content = false →
       parseCSV env path w
       = (match csv_parse env content with
          | inl error => Throw error
          | inr records => Ok (of_record <$> records)
          end, w)).
Proof.
  rewrite parseCSV_eq. unfold read_records, read_warning.
  split; [intros -> | split; intros content -> ->]; try done.
  by rewrite add_entries_nil.
Qed.

Lemma parseCSV_degrades_witness :
  parseCSV (T := ProductRow.t) Sample.header_alone
    (path_join CSV_DIR "Order.csv") Ref.empty_world
  = (Ok [],
     add_entry
       (mkEntry WARN
          ("⚠️  CSV file not found: " ++ path_join CSV_DIR "Order.csv") None)
       Ref.empty_world)
  ∧ parseCSV (T := ProductRow.t) Sample.header_alone
      (path_join CSV_DIR "Product.csv") Ref.empty_world
    = (Ok [],
       add_entry
         (mkEntry WARN
            ("⚠️  CSV file is empty: " ++ path_join CSV_DIR "Product.csv") None)
         Ref.empty_world).
Proof.
  split.
  - apply (proj1 (parseCSV_degrades Sample.header_alone _ Ref.empty_world)).
    by vm_compute.
  - apply (proj1 (proj2 (parseCSV_degrades Sample.header_alone _ Ref.empty_world))
             (Sample.lines ["id,name,price"; ""; " "])); by vm_compute.
Defined.

(** C7, as stated, fails: there is a path on which [parseCSV] throws.  The
    file has a data line with fewer cells than the header has columns, and
    csv-parse rejects it. *)
Lemma parseCSV_throws :
  parseCSV (T := ProductRow.t) Sample.short_line
    (path_join CSV_DIR "Product.csv") Ref.empty_world
  = (Throw "Invalid Record Length: columns length is 2, got 1 on line 2",
     Ref.empty_world).
Proof. by vm_compute. Qed.

(** C8, as amended: for a sequence that is not empty, the count a phase
    reports is the number of rows read from its file, whatever the store
    answered and however many rows were skipped: the phase ends normally
    and its last message is that count.  For an empty sequence the phase
    reports no count: it prints its opening line, the warning of
    [parseCSV] if any and the "No ... to seed" line, and returns. *)
Theorem reported_count_is_rows_seen (env : Env) (e : Entity)
    (rows : list Row) (w : World) :
  rows_of env e = inr rows →
  ∃ w', seed env e w = (Ok tt, w')
        ∧ match rows with
          | [] =>
              console w'
              = (console w
                 ++ start_report e
                    :: read_warning env (path_join CSV_DIR (csv_file e))
                 ++ [none_report e])%list
          | _ :: _ => last (console w') = Some (count_report e (length rows))
          end.
Proof.
  intros Hrows. rewrite seed_eq, Hrows. cbv zeta.
  destruct rows as [| r rows].
  - eexists. split; [done |]. simpl. by rewrite <- !app_assoc.
  - set (w0 := add_entries _ _).
    destruct (loop_keys env (r :: rows) w0) as (w1 & Hloop & _).
    rewrite Hloop. eexists. split; [done |]. simpl. apply last_snoc.
Qed.

Lemma reported_count_is_rows_seen_witness :
  ∃ w', seed Sample.shop Favorite Ref.empty_world = (Ok tt, w')
        ∧ last (console w') = Some (count_report Favorite 2)
        ∧ upsert_keys (calls w') = [(Favorite, "f1")]
        ∧ db w' = ∅.
Proof.
  destruct (reported_count_is_rows_seen Sample.shop Favorite
              (as_row Favorite <$>
                 [ {[ "id" := "f1"; "clerkId" := "user_1"; "productId" := "P1";
                      "createdAt" := ""; "updatedAt" := "" ]};
                   {[ "id" := "f2"; "clerkId" := ""; "productId" := "P1";
                      "createdAt" := "2024-01-15"; "updatedAt" := "2024-01-15" ]} ])
              Ref.empty_world) as (w' & Hrun & Hlast).
  - by vm_compute.
  - exists w'. split; [exact Hrun |]. split; [exact Hlast |].
    assert (w' = snd (seed Sample.shop Favorite Ref.empty_world)) as ->
      by (by rewrite Hrun).
    split; by vm_compute.
Defined.

(** C8, as stated, fails on the empty sequence: the shop has no orders
    file, the phase reads no row, and what it prints last is "No orders to
    seed"; the count of its rows, 0, is printed nowhere. *)
Lemma empty_sequence_reports_no_count :
  rows_of Sample.shop Order = inr []
  ∧ ∃ w', seed Sample.shop Order Ref.empty_world = (Ok tt, w')
          ∧ last (console w') = Some (none_report Order)
          ∧ count_report Order 0 ∉ console w'.
Proof.
  split; [by vm_compute |]. eexists. split; [by vm_compute |].
  split; [by vm_compute |]. simpl. intros Hin.
  repeat (apply elem_of_cons in Hin as [Hin | Hin]; [discriminate Hin |]).
  by apply elem_of_nil in Hin.
Qed.

Ltac solve_stamp :=
  first
    [ reflexivity
    | eexists; split; [| reflexivity]; simpl; lia ].

(** C9, as amended: building the arguments of an upsert never throws, and
    the only warnings it prints are those of the numeric coercions; none
    is about a date.  A missing or empty timestamp of a favorite row
    becomes the current time.  Every other timestamp, in every entity
    type, is [new Date] of the string as it stands: when the string is
    not a date, the Invalid Date goes into both objects handed to the
    store. *)
Theorem timestamps_as_parsed (env : Env) (r : Row) (w : World) :
  ∃ args w1,
    args_of env r w = (Ok args, w1)
    ∧ quiet w w1
    ∧ (entity_of r = Favorite → console w1 = console w)
    ∧ stamped env r w w1 "createdAt" (raw_createdAt r) (update args)
    ∧ stamped env r w w1 "createdAt" (raw_createdAt r) (create args)
    ∧ stamped env r w w1 "updatedAt" (raw_updatedAt r) (update args)
    ∧ stamped env r w w1 "updatedAt" (raw_updatedAt r) (create args).
Proof.
  destruct r as [x | x | x | x | x | x]; simpl;
    [ unfold product_args | unfold cart_args | unfold cartItem_args
    | unfold favorite_args | unfold order_args | unfold review_args ];
    run_args; eexists _, _; (split; [reflexivity |]);
    (split; [solve_quiet |]); (split; [try discriminate |]);
    unfold stamped, defaults_to_now; simpl update; simpl create;
    try (repeat split; reflexivity).
  - by destruct (falsy _), (falsy _).
  - destruct (falsy x.(FavoriteRow.createdAt)),
      (falsy x.(FavoriteRow.updatedAt)); repeat split; solve_stamp.
Qed.

(** C9, as stated, fails: the [updatedAt] of this product is no date; the
    objects handed to the store hold the Invalid Date, not the current
    time, and nothing is printed.  The same for the [createdAt] of this
    favorite, whose missing [updatedAt] alone becomes the current time. *)
Lemma invalid_date_not_defaulted :
  (∃ args w1,
     product_args Sample.shop Sample.undated Ref.empty_world = (Ok args, w1)
     ∧ update args !! "updatedAt" = Some (VDate None)
     ∧ create args !! "updatedAt" = Some (VDate None)
     ∧ console w1 = [])
  ∧ (∃ args w1,
       favorite_args Sample.shop Sample.undated_favorite Ref.empty_world
       = (Ok args, w1)
       ∧ update args !! "createdAt" = Some (VDate None)
       ∧ update args !! "updatedAt" = Some (VDate (Some 1766275200000))
       ∧ console w1 = []).
Proof. split; eexists _, _; (split; [by vm_compute |]); by vm_compute. Qed.

(** *** Re-running *)

Lemma upsert_db_eq (e : Entity) (a : UpsertArgs) (d : DB) :
  upsert_db e a d
  = <[(e, where_id a) := row_after a (d !! (e, where_id a))]> d.
Proof. unfold upsert_db, row_after. by destruct (d !! (e, where_id a)). Qed.









Ltac unfold_args :=
  unfold product_args, cart_args, cartItem_args, favorite_args, order_args,
    review_args.

(** A timestamped row builds the same arguments in every world. *)
Lemma args_of_timestamped (env : Env) (r : Row) (w : World) :
  timestamped r = true →
  ∃ w1, args_of env r w = (Ok (args_at env r), w1) ∧ quiet w w1.
Proof.
  intros Ht. unfold args_at.
  destruct r as [x | x | x | x | x | x]; simpl in *; unfold_args; run_args;
    try (eexists; split; [reflexivity | solve_quiet]).
  apply andb_true_iff in Ht as [Hc Hu].
  apply negb_true_iff in Hc, Hu. rewrite Hc, Hu.
  eexists; split; [reflexivity | solve_quiet].
Qed.

Lemma request_well_formed (env : Env) (r : Row) :
  timestamped r = true → well_formed (request env r).
Proof.
  intros Ht. unfold well_formed, request, args_at.
  destruct r as [x | x | x | x | x | x]; simpl in *; unfold_args; run_args;
    try (apply andb_true_iff in Ht as [Hc Hu];
         apply negb_true_iff in Hc, Hu; rewrite Hc, Hu);
    unfold mret, M_ret; cbn [update create snd fst];
    (split; [by rewrite dom_list_to_map_L |]);
    apply map_subseteq_union;
    rewrite (list_to_map_cons _ "id");
    apply insert_subseteq, not_elem_of_list_to_map_1; simpl;
    intros Hin;
    repeat (apply elem_of_cons in Hin as [Hin | Hin]; [discriminate Hin |]);
    by apply elem_of_nil in Hin.
Qed.












(** *** What a run leaves alone *)

Lemma only_upserts_refl (w w' : World) : calls w' = calls w → only_upserts w w'.
Proof. intros E. exists []. by rewrite app_nil_r. Qed.

Lemma only_upserts_trans (w1 w2 w3 : World) :
  only_upserts w1 w2 → only_upserts w2 w3 → only_upserts w1 w3.
Proof.
  intros (cs & E1 & F1) (ds & E2 & F2). exists (cs ++ ds)%list.
  rewrite E2, E1, app_assoc. split; [done | by apply Forall_app].
Qed.

Lemma keeps_rows_trans (d1 d2 d3 : DB) :
  keeps_rows d1 d2 → keeps_rows d2 d3 → keeps_rows d1 d3.
Proof. intros H1 H2 k Hk. by apply H2, H1. Qed.

Lemma untouched_app (ks1 ks2 : list (Entity * string)) (d1 d2 d3 : DB) :
  untouched_outside ks1 d1 d2 → untouched_outside ks2 d2 d3 →
  untouched_outside (ks1 ++ ks2) d1 d3.
Proof.
  intros H1 H2 k Hk. rewrite elem_of_app in Hk.
  rewrite H2, H1; tauto.
Qed.

Lemma frame_refl (ks : list (Entity * string)) (d : DB) :
  keeps_rows d d ∧ untouched_outside ks d d.
Proof. split; by intros k Hk. Qed.

Lemma after_upsert_frame (env : Env) (r : Row) args (w : World) :
  where_id args = id_of r →
  only_upserts w (after_upsert env r args w)
  ∧ keeps_rows (db w) (db (after_upsert env r args w))
  ∧ untouched_outside [key_of r] (db w) (db (after_upsert env r args w)).
Proof.
  intros Hid. unfold after_upsert, key_of. rewrite <- Hid.
  destruct (store_error env w (entity_of r) args); simpl.
  - split; [| apply frame_refl]. eexists. split; [done |]. by repeat constructor.
  - split; [eexists; split; [done |]; by repeat constructor |].
    rewrite upsert_db_eq. split.
    + intros k Hk. destruct (decide (k = (entity_of r, where_id args))) as [-> |].
      * rewrite lookup_insert_eq. by eexists.
      * by rewrite lookup_insert_ne.
    + intros k Hk. rewrite lookup_insert_ne; [done |].
      intros <-. apply Hk. by left.
Qed.

Lemma quiet_only_upserts (w w' : World) : quiet w w' → only_upserts w w'.
Proof. intros Hq. by apply only_upserts_refl, quiet_calls. Qed.

(** The loop adds upserts only, removes no row, and leaves every row
    alone whose key is not that of a row it tries. *)
Lemma loop_frame (env : Env) (rows : list Row) (w w' : World) :
  for_of rows (seed_row env) w = (Ok tt, w') →
  only_upserts w w'
  ∧ keeps_rows (db w) (db w')
  ∧ untouched_outside (key_of <$> attempted rows) (db w) (db w').
Proof.
  revert w. induction rows as [| r rows IH]; intros w.
  - intros [= <-]. split; [by apply only_upserts_refl | apply frame_refl].
  - simpl. unfold mbind, M_bind, attempted.
    destruct (skipped r) eqn:Hs.
    + rewrite (seed_row_skipped _ _ _ Hs).
      rewrite filter_cons_False by (rewrite Hs; discriminate). apply IH.
    + destruct (args_of_quiet env r w) as (args & w1 & Ha & Hq & Hid).
      rewrite (seed_row_run _ _ _ _ _ Hs Ha).
      rewrite filter_cons_True by done. intros Hrun.
      destruct (IH _ Hrun) as (Hc & Hk & Hu).
      destruct (after_upsert_frame env r args w1 Hid) as (Hc1 & Hk1 & Hu1).
      rewrite <- (quiet_db _ _ Hq).
      split; [| split].
      * eapply only_upserts_trans; [by apply quiet_only_upserts |].
        eapply only_upserts_trans; done.
      * by eapply keeps_rows_trans.
      * by apply (untouched_app [key_of r] _ _ _ _ Hu1 Hu).
Qed.

(** The phases in sequence: the result is the first error of csv-parse,
    if any; the calls are upserts; no row is removed; rows outside the
    plan are left alone. *)
Lemma phases_frame (env : Env) (es : list Entity) (w : World) :
  ∃ w', for_of es (seed env) w = (outcome (first_error_from env es), w')
        ∧ only_upserts w w'
        ∧ keeps_rows (db w) (db w')
        ∧ untouched_outside (planned_from env es) (db w) (db w').
Proof.
  revert w. induction es as [| e es IH]; intros w.
  - exists w. split; [done |].
    split; [by apply only_upserts_refl | apply frame_refl].
  - simpl. unfold mbind, M_bind. rewrite seed_eq. cbv zeta.
    destruct (rows_of env e) as [error | rows].
    + eexists. split; [done |].
      split; [by apply only_upserts_refl | apply frame_refl].
    + set (w0 := add_entries _ (add_entry (start_report e) w)).
      destruct rows as [| r rows].
      * destruct (IH (add_entry (none_report e) w0)) as (w' & Hrun & H).
        exists w'. split; [done | exact H].
      * destruct (loop_keys env (r :: rows) w0) as (w1 & Hloop & _).
        rewrite Hloop.
        destruct (loop_frame env (r :: rows) w0 w1 Hloop) as (Hc1 & Hk1 & Hu1).
        destruct (IH (add_entry (count_report e (length (r :: rows))) w1))
          as (w' & Hrun & Hc & Hk & Hu).
        exists w'. split; [done |]. split; [| split].
        -- eapply only_upserts_trans; [exact Hc1 | exact Hc].
        -- eapply keeps_rows_trans; [exact Hk1 | exact Hk].
        -- by apply (untouched_app _ _ _ _ _ Hu1 Hu).
Qed.

(** X1: whatever happens, a run ends by disconnecting the client: the
    calls it adds are upserts followed by exactly one [$disconnect], the
    last call, also when a file is rejected and [main] rethrows. *)
Theorem main_disconnects_last (env : Env) (w : World) :
  ∃ cs, calls (snd (main env w)) = (calls w ++ cs ++ [CDisconnect])%list
        ∧ Forall is_upsert cs.
Proof.
  rewrite main_eq. set (w0 := add_entry _ (add_entry _ w)).
  destruct (phases_frame env phases w0) as (w1 & Hrun & (cs & Hc & Hcs) & _).
  rewrite Hrun. exists cs. split; [| exact Hcs].
  destruct (outcome _); simpl; rewrite Hc; simpl; by rewrite <- app_assoc.
Qed.

(** X2: the outcome of a run is decided by the files alone.  [main]
    throws exactly the error of the first file that cannot be read or
    that csv-parse rejects, after printing it under "Error seeding
    database", and the process exits with status 1; when every file that
    exists is read and parsed [main] returns, the last line printed is the
    success message and the status is 0, whatever the store answered to
    the upserts. *)
Theorem run_outcome (env : Env) (w : World) :
  fst (main env w) = outcome (first_error env)
  ∧ match first_error env with
    | None =>
        fst (script env w) = 0
        ∧ last (console (snd (script env w)))
          = Some (mkEntry LOG (NL ++ "✨ Database seeded successfully!") None)
    | Some error =>
        fst (script env w) = 1
        ∧ ∃ before,
            console (snd (script env w))
            = (before ++ [ mkEntry ERROR "❌ Error seeding database:" (Some error);
                           mkEntry ERROR error None ])%list
    end.
Proof.
  unfold script. rewrite main_eq. set (w0 := add_entry _ (add_entry _ w)).
  destruct (phases_frame env phases w0) as (w1 & Hrun & _).
  rewrite Hrun. unfold first_error.
  destruct (first_error_from env phases) as [error |]; simpl.
  - split; [done |]. split; [done |]. exists (console w1).
    by rewrite <- app_assoc.
  - split; [done |]. split; [done |]. apply last_snoc.
Qed.

Lemma run_outcome_witness :
  fst (main Sample.locked Ref.empty_world)
  = Throw "EISDIR: illegal operation on a directory, read"
  ∧ fst (script Sample.locked Ref.empty_world) = 1
  ∧ issued Sample.locked Ref.empty_world = [(Product, "P1"); (Product, "P2")].
Proof.
  pose proof (run_outcome Sample.locked Ref.empty_world) as [Hmain Hscript].
  assert (first_error Sample.locked
          = Some "EISDIR: illegal operation on a directory, read") as E
    by (vm_compute; reflexivity).
  rewrite E in Hmain, Hscript.
  split; [exact Hmain |]. split; [exact (proj1 Hscript) |].
  vm_compute. reflexivity.
Defined.

(** X3: a run never removes a row from the store, and it leaves every
    row as it was whose model and id are not among the planned upserts,
    whatever the store answers. *)
Theorem run_touches_planned_only (env : Env) (w : World) :
  keeps_rows (db w) (db (snd (main env w)))
  ∧ untouched_outside (planned env) (db w) (db (snd (main env w))).
Proof.
  rewrite main_eq. set (w0 := add_entry _ (add_entry _ w)).
  destruct (phases_frame env phases w0) as (w1 & Hrun & _ & Hk & Hu).
  rewrite Hrun. by destruct (outcome _).
Qed.

(** X4: a phase whose file does not exist does nothing to the store: it
    prints its opening line, the warning of [parseCSV] and the "No ... to
    seed" line, makes no call, prints no count and returns normally. *)
Theorem phase_without_file (env : Env) (e : Entity) (w : World) :
  files env !! path_join CSV_DIR (csv_file e) = None →
  seed env e w
  = (Ok tt,
     add_entry (none_report e)
       (add_entry
          (mkEntry WARN
             ("⚠️  CSV file not found: " ++ path_join CSV_DIR (csv_file e)) None)
          (add_entry (start_report e) w))).
Proof.
  intros Hfile. rewrite seed_eq. unfold rows_of, read_records, read_warning.
  by rewrite Hfile.
Qed.

Lemma phase_without_file_witness :
  seed Sample.shop Order Ref.empty_world
  = (Ok tt,
     add_entry (none_report Order)
       (add_entry
          (mkEntry WARN
             ("⚠️  CSV file not found: " ++ path_join CSV_DIR "Order.csv") None)
          (add_entry (start_report Order) Ref.empty_world))).
Proof. apply (phase_without_file Sample.shop Order). by vm_compute. Defined.

(** X5: for every row that reads no clock (every row but a favorite with
    a missing or empty timestamp), the two objects of its upsert say the
    same: [create] is [update] with the [id], and the [where] clause names
    that [id].  The stored fields do not depend on whether the row
    existed. *)
Theorem create_is_update_with_id (env : Env) (r : Row) (w w1 : World)
    (args : UpsertArgs) :
  timestamped r = true →
  args_of env r w = (Ok args, w1) →
  where_id args = id_of r
  ∧ create args = <["id" := VString (id_of r)]> (update args).
Proof.
  intros Ht.
  destruct r as [x | x | x | x | x | x]; simpl in *; unfold_args; run_args;
    try (apply andb_true_iff in Ht as [Hc Hu];
         apply negb_true_iff in Hc, Hu; rewrite Hc, Hu);
    intros [= <- _]; by split.
Qed.

Lemma create_is_update_with_id_witness :
  ∃ args w1,
    product_args Sample.shop Sample.undated Ref.empty_world = (Ok args, w1)
    ∧ where_id args = "P3"
    ∧ create args = <["id" := VString "P3"]> (update args).
Proof.
  destruct (args_of_quiet Sample.shop (RProduct Sample.undated) Ref.empty_world)
    as (args & w1 & Ha & _ & _).
  exists args, w1. split; [exact Ha |].
  exact (create_is_update_with_id Sample.shop (RProduct Sample.undated)
           Ref.empty_world w1 args eq_refl Ha).
Defined.

Lemma row_after_columns (q : Entity * UpsertArgs) (o : option Fields)
    (c : string) :
  well_formed q → c ∈ columns q.1 → row_after q.2 o !! c = update q.2 !! c.
Proof.
  intros [Hdom Hc] Hin.
  assert (is_Some (update q.2 !! c)) as [v Hv].
  { apply elem_of_dom. rewrite Hdom. by apply elem_of_list_to_set. }
  destruct o as [row |]; simpl.
  - rewrite Hv. by apply lookup_union_Some_l.
  - rewrite <- Hc, Hv. by apply lookup_union_Some_l.
Qed.

Lemma args_at_id (env : Env) (r : Row) :
  timestamped r = true → where_id (args_at env r) = id_of r.
Proof.
  intros Ht.
  destruct (args_of_timestamped env r (mkWorld ∅ [] [] 0) Ht) as (w1 & Ha & _).
  destruct (args_of_quiet env r (mkWorld ∅ [] [] 0)) as (args & w2 & Hb & _ & Hid).
  rewrite Ha in Hb. by injection Hb as <- _.
Qed.

(** X6: the last row of a key wins.  When the store accepts the upsert of
    a row that reads no clock, at the moment the loop issues it, and no
    later row of the loop has its key, then after the loop the store holds
    a row under that key whose columns are those the row's [update] object
    sets, whether the row was created or updated and whatever came
    before. *)
Theorem last_row_wins (env : Env) (before after : list Row) (r : Row)
    (w w0 w1 : World) (args : UpsertArgs) :
  for_of before (seed_row env) w = (Ok tt, w0) →
  skipped r = false →
  timestamped r = true →
  args_of env r w0 = (Ok args, w1) →
  store_error env w1 (entity_of r) args = None →
  key_of r ∉ key_of <$> attempted after →
  ∃ w' row,
    for_of (before ++ r :: after) (seed_row env) w = (Ok tt, w')
    ∧ db w' !! key_of r = Some row
    ∧ ∀ c, c ∈ columns (entity_of r) → row !! c = update args !! c.
Proof.
  intros Hbefore Hs Ht Ha Hacc Hlater. rewrite for_of_app, Hbefore.
  simpl. unfold mbind, M_bind.
  destruct (args_of_timestamped env r w0 Ht) as (w1' & Ha' & _).
  rewrite Ha in Ha'. injection Ha' as -> <-.
  pose proof (args_at_id env r Ht) as Hid.
  rewrite (seed_row_run _ _ _ _ _ Hs Ha).
  destruct (loop_keys env after (after_upsert env r (args_at env r) w1))
    as (w' & Hrun & _).
  destruct (loop_frame _ _ _ _ Hrun) as (_ & _ & Hu).
  exists w', (row_after (args_at env r) (db w1 !! key_of r)).
  split; [exact Hrun |]. split.
  - rewrite (Hu _ Hlater). unfold after_upsert. rewrite Hacc. simpl.
    rewrite upsert_db_eq. unfold key_of. rewrite Hid.
    by rewrite lookup_insert_eq.
  - intros c Hc.
    apply (row_after_columns (request env r)); [| exact Hc].
    by apply request_well_formed.
Qed.

Lemma last_row_wins_witness :
  store_error Sample.shop Ref.empty_world CartItem
    (args_at Sample.shop (RCartItem (Sample.item "i2" "P1" "3")))
  = Some "Foreign key constraint violated"
  ∧ ∃ w' row,
      for_of [ RCartItem (Sample.item "i1" "P9" "1");
               RCartItem (Sample.item "i2" "P1" "2");
               RCartItem (Sample.item "i2" "P1" "3") ]
        (seed_row Sample.shop) Sample.stocked = (Ok tt, w')
      ∧ db w' !! (CartItem, "i2") = Some row
      ∧ row !! "amount" = Some (VInt (JS.FNum 3))
      ∧ db w' !! (CartItem, "i1") = None.
Proof.
  split; [by vm_compute |].
  set (before := [ RCartItem (Sample.item "i1" "P9" "1");
                   RCartItem (Sample.item "i2" "P1" "2") ]).
  set (r := RCartItem (Sample.item "i2" "P1" "3")).
  set (w0 := snd (for_of before (seed_row Sample.shop) Sample.stocked)).
  assert (for_of before (seed_row Sample.shop) Sample.stocked = (Ok tt, w0))
    as Hbefore by (vm_compute; reflexivity).
  assert (args_of Sample.shop r w0
          = (Ok (args_at Sample.shop r), snd (args_of Sample.shop r w0)))
    as Ha by (vm_compute; reflexivity).
  assert (store_error Sample.shop (snd (args_of Sample.shop r w0))
            (entity_of r) (args_at Sample.shop r) = None)
    as Hacc by (vm_compute; reflexivity).
  assert (key_of r ∉ key_of <$> attempted []) as Hlater
    by (simpl; apply not_elem_of_nil).
  destruct (last_row_wins Sample.shop before [] r Sample.stocked w0 _ _
              Hbefore eq_refl eq_refl Ha Hacc Hlater)
    as (w' & row & Hrun & Hrow & Hcols).
  exists w', row. split; [exact Hrun |]. split; [exact Hrow |].
  split.
  - rewrite Hcols; [vm_compute; reflexivity |].
    apply list_elem_of_In. simpl. tauto.
  - assert (w' = snd (for_of (before ++ [r]) (seed_row Sample.shop)
                        Sample.stocked)) as -> by (by rewrite Hrun).
    vm_compute. reflexivity.
Defined.

(** X7: every warning of a numeric coercion is printed twice.  Building
    the arguments of an upsert evaluates the coercions of the [update]
    object and then those of the [create] object, so the console receives
    the warnings of the row's numeric fields, in field order, and then the
    same warnings again; a favorite row has no numeric field and prints
    nothing. *)
Theorem coercion_warnings_twice (env : Env) (r : Row) (w : World) :
  ∃ args w1,
    args_of env r w = (Ok args, w1)
    ∧ console w1
      = (console w ++ coercion_warnings r ++ coercion_warnings r)%list.
Proof.
  destruct r as [x | x | x | x | x | x]; simpl; unfold_args; run_args;
    eexists _, _; (split; [reflexivity |]); simpl;
    rewrite <- ?app_assoc; try reflexivity.
  destruct (falsy _), (falsy _); simpl; by rewrite app_nil_r.
Qed.

(** X8: only a favorite reads the clock, twice for each of its two
    timestamps that is missing or empty (once for [update], once for
    [create]); the rows of every other entity type never read it.  The
    two objects of such a favorite hold different readings: [update] the
    first one of the row, [create] a later one. *)
Theorem clock_reads_of_row (env : Env) (r : Row) (w : World) :
  ∃ args w1,
    args_of env r w = (Ok args, w1)
    ∧ clock_reads w1 = (2 * defaulted r + clock_reads w)%nat
    ∧ (defaults_to_now r (raw_createdAt r) = true →
       update args !! "createdAt"
       = Some (VDate (Some (clock env (clock_reads w))))
       ∧ create args !! "createdAt"
         = Some (VDate (Some (clock env (defaulted r + clock_reads w)%nat)))).
Proof.
  destruct r as [x | x | x | x | x | x]; simpl; unfold_args; run_args;
    eexists _, _; (split; [reflexivity |]); unfold defaulted; simpl;
    try (split; [reflexivity | discriminate]).
  destruct (falsy x.(FavoriteRow.createdAt)),
    (falsy x.(FavoriteRow.updatedAt)); simpl;
    (split; [reflexivity |]); (discriminate || (intros _; by split)).
Qed.

(** *** Numerals *)

Lemma digit_range (c : ascii) :
  is_Some (JS.digit c) → 48 ≤ JS.code c ≤ 57.
Proof.
  intros [d H]. unfold JS.digit in H. cbv zeta in H.
  destruct ((48 <=? JS.code c) && (JS.code c <=? 57)) eqn:E; [| done].
  apply andb_true_iff in E as [E1 E2]. apply Z.leb_le in E1, E2. lia.
Qed.

Lemma trimStart_digit (c : ascii) (r : string) :
  is_Some (JS.digit c) → JS.trimStart (String c r) = String c r.
Proof.
  intros Hd. apply digit_range in Hd. cbn [JS.trimStart].
  assert (JS.is_ws1 c = false) as ->.
  { unfold JS.is_ws1. cbv zeta. apply orb_false_iff. split.
    - apply andb_false_iff. right. apply Z.leb_gt. lia.
    - apply Z.eqb_neq. lia. }
  destruct r as [| b r2]; [done |].
  assert (JS.is_ws2 c b = false) as ->.
  { unfold JS.is_ws2. apply andb_false_iff. left. apply Z.eqb_neq. lia. }
  destruct r2 as [| a r3]; [done |].
  assert (JS.is_ws3 c b a = false) as ->; [| done].
  unfold JS.is_ws3. cbv zeta.
  rewrite !(proj2 (Z.eqb_neq (JS.code c) _)) by lia. done.
Qed.

Lemma take_sign_digit (c : ascii) (r : string) :
  is_Some (JS.digit c) → JS.take_sign (String c r) = (false, String c r).
Proof.
  intros Hd. apply digit_range in Hd. unfold JS.take_sign.
  assert (Ascii.eqb c "-" = false) as ->.
  { apply Ascii.eqb_neq. intros ->. vm_compute in Hd. destruct Hd as [Hd _].
    by apply Hd. }
  assert (Ascii.eqb c "+" = false) as ->; [| done].
  apply Ascii.eqb_neq. intros ->. vm_compute in Hd. destruct Hd as [Hd _].
  by apply Hd.
Qed.

Lemma span_digits_numeral (d : Decimal.uint) (rest : string) :
  starts_with_digit rest = false →
  JS.span_digits (NilEmpty.string_of_uint d ++ rest) = (uint_digits d, rest).
Proof.
  intros Hrest.
  induction d as [| d IH | d IH | d IH | d IH | d IH | d IH | d IH | d IH
                  | d IH | d IH];
    try (simpl; simpl in IH; by rewrite IH).
  simpl. destruct rest as [| c r]; [done |]. simpl in *.
  destruct (JS.digit c); [| done].
  by rewrite bool_decide_eq_true_2 in Hrest by eauto.
Qed.

Lemma digits_value_numeral (d : Decimal.uint) (acc : nat) :
  fold_left (fun a x => 10 * a + x) (uint_digits d) (Z.of_nat acc)
  = Z.of_nat (Nat.of_uint_acc d acc).
Proof.
  revert acc. induction d; intros acc; simpl; [done | ..];
    rewrite <- IHd; f_equal; rewrite Nat.tail_mul_spec; lia.
Qed.

Lemma numeral_head (n : nat) :
  ∃ c r, show_nat n = String c r ∧ is_Some (JS.digit c)
         ∧ uint_digits (Nat.to_uint n) ≠ [].
Proof.
  unfold show_nat.
  assert (Nat.to_uint n ≠ Decimal.Nil) as Hnil.
  { rewrite <- (DecimalNat.Unsigned.of_to n) at 1.
    rewrite DecimalNat.Unsigned.to_of. apply DecimalFacts.unorm_nonnil. }
  destruct (Nat.to_uint n); [done | ..]; eexists _, _;
    (split; [reflexivity |]); (split; [by eexists | done]).
Qed.

Lemma mathInt_numeral (n : nat) (rest : string) :
  starts_with_digit rest = false →
  JS.mathInt (show_nat n ++ rest) = Some (Z.of_nat n).
Proof.
  intros Hrest. destruct (numeral_head n) as (c & r & Hshow & Hc & Hne).
  unfold JS.mathInt.
  assert (JS.take_sign (JS.trimStart (show_nat n ++ rest))
          = (false, show_nat n ++ rest)) as ->.
  { assert (show_nat n ++ rest = String c (r ++ rest)) as ->
      by (by rewrite Hshow).
    rewrite trimStart_digit by done. by apply take_sign_digit. }
  unfold show_nat. rewrite (span_digits_numeral _ _ Hrest).
  destruct (uint_digits (Nat.to_uint n)) as [| x xs] eqn:E; [done |].
  rewrite <- E. unfold JS.digits_value, JS.with_sign.
  rewrite (digits_value_numeral _ 0).
  by rewrite <- (DecimalNat.Unsigned.of_to n) at 2.
Qed.

Lemma mathInt_minus (c : ascii) (r : string) :
  is_Some (JS.digit c) →
  JS.mathInt (String "-" (String c r)) = Z.opp <$> JS.mathInt (String c r).
Proof.
  intros Hd. unfold JS.mathInt.
  assert (JS.trimStart (String "-" (String c r)) = String "-" (String c r))
    as ->.
  { cbn [JS.trimStart]. change (JS.is_ws1 "-") with false. cbv iota.
    assert (JS.is_ws2 "-" c = false) as -> by reflexivity.
    destruct r as [| a r3]; [done |].
    assert (JS.is_ws3 "-" c a = false) as -> by reflexivity. done. }
  rewrite trimStart_digit, (take_sign_digit c r) by done.
  change (JS.take_sign (String "-" (String c r))) with (true, String c r).
  cbv beta iota zeta.
  by destruct (JS.span_digits (String c r)) as [[| x xs] rest].
Qed.

Lemma binary64_of_Z_not_NaN (z : Z) : JS.binary64_of_Z z ≠ JS.FNaN.
Proof.
  destruct (binary64_of_Z_cases z) as [[z' H] | [neg H]]; congruence.
Qed.

(** X9: [parseIntValue] reads back a decimal numeral.  The decimal numeral
    of a natural number (as a template literal prints it), followed by
    anything that does not start with a digit, parses without a warning
    to the binary64 of that number, and with a minus sign in front to the
    binary64 of its negation; up to [2^53] that is the number itself. *)
Theorem parseIntValue_reads_numeral (n : nat) (rest : string) (w : World) :
  starts_with_digit rest = false →
  parseIntValue (show_nat n ++ rest) w
  = (Ok (JS.binary64_of_Z (Z.of_nat n)), w)
  ∧ parseIntValue ("-" ++ show_nat n ++ rest) w
    = (Ok (JS.binary64_of_Z (- Z.of_nat n)), w)
  ∧ (Z.of_nat n ≤ 2 ^ 53 →
     JS.binary64_of_Z (Z.of_nat n) = JS.FNum (inject_Z (Z.of_nat n))
     ∧ JS.binary64_of_Z (- Z.of_nat n) = JS.FNum (inject_Z (- Z.of_nat n))).
Proof.
  intros Hrest. pose proof (mathInt_numeral n rest Hrest) as Hp.
  assert (JS.parseInt (show_nat n ++ rest) = JS.binary64_of_Z (Z.of_nat n))
    as H1 by (unfold JS.parseInt; by rewrite Hp).
  assert (JS.parseInt ("-" ++ show_nat n ++ rest)
          = JS.binary64_of_Z (- Z.of_nat n)) as H2.
  { destruct (numeral_head n) as (c & r & Hshow & Hc & _).
    assert (show_nat n ++ rest = String c (r ++ rest)) as E
      by (by rewrite Hshow).
    rewrite E in *. change ("-" ++ String c (r ++ rest))
      with (String "-" (String c (r ++ rest))).
    unfold JS.parseInt. by rewrite mathInt_minus, Hp. }
  split; [| split].
  - rewrite parseIntValue_number; rewrite H1; [done |].
    apply binary64_of_Z_not_NaN.
  - rewrite parseIntValue_number; rewrite H2; [done |].
    apply binary64_of_Z_not_NaN.
  - intros Hn. split; apply binary64_of_Z_exact; lia.
Qed.

Lemma parseIntValue_reads_numeral_witness :
  parseIntValue "2024-01-15" Ref.empty_world
  = (Ok (JS.FNum 2024), Ref.empty_world)
  ∧ parseIntValue "-40 degrees" Ref.empty_world
    = (Ok (JS.FNum (-40)), Ref.empty_world)
  ∧ parseIntValue "9007199254740993" Ref.empty_world
    = (Ok (JS.FNum 9007199254740992), Ref.empty_world).
Proof.
  destruct (parseIntValue_reads_numeral 2024 "-01-15" Ref.empty_world eq_refl)
    as (H1 & _ & _).
  destruct (parseIntValue_reads_numeral 40 " degrees" Ref.empty_world eq_refl)
    as (_ & H2 & _).
  split; [exact H1 |]. split; [exact H2 |]. by vm_compute.
Defined.

(** X10: [parseFloatValue] never returns NaN, but it lets Infinity
    through: [isNaN] is false on it, so a field that reads [Infinity]
    (after white space and a sign, whatever follows) is returned as an
    infinite number, with no warning and no default. *)
Theorem parseFloatValue_never_NaN (s : string) (w : World) :
  (∃ f w', parseFloatValue s w = (Ok f, w') ∧ f ≠ JS.FNaN)
  ∧ (is_Some (JS.strip_prefix "Infinity" (numeral_start s)) →
     parseFloatValue s w
     = (Ok (JS.FInfinity (JS.take_sign (JS.trimStart s)).1), w)).
Proof.
  split.
  - rewrite parseFloatValue_eq. eexists _, _. split; [reflexivity |].
    unfold float_or_0. by destruct (JS.parseFloat s).
  - intros [rest Hinf]. unfold parseFloatValue, JS.parseFloat.
    unfold numeral_start in Hinf.
    destruct (JS.take_sign (JS.trimStart s)) as [neg body].
    cbn [snd] in Hinf. by rewrite Hinf.
Qed.

Lemma parseFloatValue_never_NaN_witness :
  parseFloatValue " -Infinity%" Ref.empty_world
  = (Ok (JS.FInfinity true), Ref.empty_world).
Proof.
  apply (proj2 (parseFloatValue_never_NaN " -Infinity%" Ref.empty_world)).
  by eexists.
Defined.
